(** * Grading pipeline of the coffee-bean classifier (grain_classification)

    Shallow embedding of
    - [domain/model/valueobjetcs/quality_models.py]  (fixed vocabularies),
    - [domain/services/grading_service.py]           (QualityGradingService),
    - [infrastructure/cv_service.py]                 (CVService),
    - [infrastructure/ml_predictor_service.py]       (MLPredictorService.predict_color_percentages).

    Python [float] is IEEE-754 binary64, modelled by the kernel's primitive
    floats ([PrimFloat]); float literals below denote the same nearest double
    that CPython's parser produces.  OpenCV and Keras calls are external
    libraries: they are section variables, with the facts of their contracts
    that a statement relies on made explicit as hypotheses. *)

From Stdlib Require Import ZArith Lia Bool List String Floats.
From Stdlib Require Import Reals Lra.
From Stdlib Require Uint63.
Import ListNotations.

Set Warnings "-inexact-float".

(* ------------------------------------------------------------------ *)
(** ** Python runtime values used by the service code *)

Module Py.

Open Scope float_scope.

(** Values stored in the [features] dictionary. *)
Inductive value :=
| VFloat (f : float)
| VInt (z : Z)
| VBool (b : bool)
| VStr (s : string)
| VNone.

(** [float(z)] for a Python int: the correctly rounded double. *)
Definition float_of_Z (z : Z) : float :=
  SF2Prim (binary_normalize prec emax z 0 false).

(** Truth value of an object ([if x:]). *)
Definition truthy (v : value) : bool :=
  match v with
  | VFloat f => negb (f =? 0)
  | VInt z => negb (z =? 0)%Z
  | VBool b => b
  | VStr s => negb (String.eqb s "")
  | VNone => false
  end.

(** [v < c] for a float constant [c]; [None] is the [TypeError] raised when
    [v] is not a number. *)
Definition lt_float (v : value) (c : float) : option bool :=
  match v with
  | VFloat f => Some (f <? c)
  | VInt z => Some (float_of_Z z <? c)
  | VBool b => Some ((if b then 1 else 0) <? c)
  | VStr _ | VNone => None
  end.

(** Builtin [max(a, b)]: [b] replaces [a] only when [b > a]. *)
Definition py_max (a b : float) : float := if a <? b then b else a.

(** [x ** 2] on floats ([float_pow] of CPython's [floatobject.c]).  NaN,
    infinite, zero and [+-1.0] bases are answered without the C library
    ([nan], [inf], [0.0], [1.0], each equal to [x * x]); any other base is
    replaced by [|x|] and passed to the C library's [pow(|x|, 2.0)], given
    as [libm_pow]: its result and whether it set [errno] to [ERANGE] (a
    domain error cannot arise for a positive base and exponent [2.0]).
    [_Py_ADJUST_ERANGE1] then sets [ERANGE] on an infinite result and clears
    it on a zero result; a remaining [ERANGE] raises [OverflowError]. *)
Definition py_pow2 (libm_pow : float -> float * bool) (x : float) : option float :=
  if is_finite x && negb (x =? 0) && negb (abs x =? 1) then
    let '(r, erange) := libm_pow (abs x) in
    let erange := if erange then negb (r =? 0) else is_infinity r in
    if erange then None else Some r
  else Some (x * x).

(** [a / b] on floats raises [ZeroDivisionError] when [b == 0]. *)
Definition py_div (a b : float) : option float :=
  if b =? 0 then None else Some (a / b).

(** [sum(xs)] over floats: start from the int [0] and add left to right
    (the documented semantics; [0 + x] is [0.0 + x]). *)
Definition py_sum (xs : list float) : float := fold_left add xs 0.

(** Round-half-even of the non-negative rational [num / den]. *)
Definition round_half_even (num den : Z) : Z :=
  let q := (num / den)%Z in
  let r := (num mod den)%Z in
  match Z.compare (2 * r) den with
  | Lt => q
  | Gt => q + 1
  | Eq => if Z.even q then q else q + 1
  end%Z.

(** [round(x, 3)]: CPython converts [x] to the decimal string correctly
    rounded (half-even, on the exact binary value) to 3 places and parses it
    back, i.e. the double nearest to [k / 1000], which is the IEEE quotient
    of [k] and [1000.].  Integral values, zeros, infinities and NaN come back
    unchanged. *)
Definition round3 (x : float) : float :=
  match Prim2SF x with
  | S754_finite s m e =>
      if (0 <=? e)%Z then x
      else
        let k := round_half_even (Zpos m * 1000) (2 ^ (- e)) in
        let q := float_of_Z k / 1000 in
        if s then - q else q
  | _ => x
  end.

(** Python dicts with string keys, as insertion-ordered association lists. *)
Section Dict.
Context {A : Type}.

Fixpoint get (d : list (string * A)) (k : string) : option A :=
  match d with
  | [] => None
  | (k', v) :: d' => if String.eqb k k' then Some v else get d' k
  end.

Definition get_default (d : list (string * A)) (k : string) (dflt : A) : A :=
  match get d k with Some v => v | None => dflt end.

(** [d[k] = v]: overwrite in place, or append a new key. *)
Fixpoint setitem (d : list (string * A)) (k : string) (v : A) : list (string * A) :=
  match d with
  | [] => [(k, v)]
  | (k', v') :: d' =>
      if String.eqb k k' then (k', v) :: d' else (k', v') :: setitem d' k v
  end.
End Dict.

End Py.

(* ------------------------------------------------------------------ *)
(** ** quality_models.py *)

Module QualityModels.
Open Scope float_scope.

Definition QUALITY_CATEGORIES : list string :=
  ["Specialty"; "Premium"; "A"; "B"; "C"]%string.

(** The dict literal, in its insertion order (the iteration order). *)
Definition QUALITY_THRESHOLDS : list (string * float) :=
  [("Specialty", 0.9); ("Premium", 0.8); ("A", 0.7); ("B", 0.6); ("C", 0.0)]%string.

Definition CNN_COLOR_CLASSES : list string :=
  ["Dark"; "Green"; "Light"; "Medium"]%string.

(** Position of a category in [QUALITY_CATEGORIES] (0 = Specialty, the
    best); the fixed order Specialty > Premium > A > B > C. *)
Fixpoint index_of (c : string) (l : list string) : nat :=
  match l with
  | [] => 0
  | c' :: l' => if String.eqb c c' then 0 else S (index_of c l')
  end.

Definition category_rank (c : string) : nat := index_of c QUALITY_CATEGORIES.

End QualityModels.

(* ------------------------------------------------------------------ *)
(** ** grading_service.py : QualityGradingService *)

Module Grading.
Import Py QualityModels.
Open Scope float_scope.

Definition features := list (string * value).

(** [_evaluate_shape_quality]; [None] when [circularity < 0.7] raises. *)
Definition evaluate_shape_quality (feats : features) : option float :=
  let shape_score := 1.0 in
  let circularity := get_default feats "circularity" (VFloat 0.5) in
  match lt_float circularity 0.7 with
  | None => None
  | Some low =>
      let shape_score := if low then shape_score - 0.3 else shape_score in
      let shape_score :=
        if truthy (get_default feats "has_cracks" (VBool false))
        then shape_score - 0.2 else shape_score in
      Some (py_max 0.0 shape_score)
  end.

(** The loop of [_determine_quality_category] over [self.quality_thresholds]. *)
Fixpoint first_category (ths : list (string * float)) (final_score : float) : string :=
  match ths with
  | [] => "C"%string
  | (category, threshold) :: rest =>
      if threshold <=? final_score then category else first_category rest final_score
  end.

Definition determine_quality_category (final_score : float) : string :=
  first_category QUALITY_THRESHOLDS final_score.

(** The dict returned by [calculate_final_quality]. *)
Record assessment := {
  quality_category : string;
  final_score : float;
  base_quality_score : float;
  shape_score : float;
  source_category : string
}.

Definition calculate_final_quality (base_score : float) (source_category : string)
    (feats : features) : option assessment :=
  match evaluate_shape_quality feats with
  | None => None
  | Some shape_score =>
      let final_score := base_score * 0.7 + shape_score * 0.3 in
      let final_category := determine_quality_category final_score in
      Some {| quality_category := final_category;
              final_score := round3 final_score;
              base_quality_score := base_score;
              shape_score := shape_score;
              source_category := source_category |}
  end.

(** The report dict of [generate_batch_report]. *)
Record batch_report := {
  total_beans_analyzed : Z;
  category_distribution : list (string * Z);
  average_quality_score : float;
  lot_quality : string
}.

(** [{"error": ...}] or the report. *)
Inductive batch_result :=
| BatchError (msg : string)
| BatchOk (r : batch_report).

(** The counting loop: only keys already present are incremented. *)
Definition count_step (category_count : list (string * Z)) (bean : assessment)
  : list (string * Z) :=
  let category := quality_category bean in
  match get category_count category with
  | Some n => setitem category_count category (n + 1)%Z
  | None => category_count
  end.

Definition generate_batch_report (bean_assessments : list assessment) : batch_result :=
  let total_beans := Z.of_nat (List.length bean_assessments) in
  if (total_beans =? 0)%Z then BatchError "No se analizaron granos"%string
  else
    let category_count := map (fun c => (c, 0%Z)) QUALITY_CATEGORIES in
    let category_count := fold_left count_step bean_assessments category_count in
    let avg_score := py_sum (map final_score bean_assessments) / float_of_Z total_beans in
    let lot_quality := determine_quality_category avg_score in
    BatchOk {| total_beans_analyzed := total_beans;
               category_distribution := category_count;
               average_quality_score := round3 avg_score;
               lot_quality := lot_quality |}.

(** Statement helpers: the sum of the counts, and the number of beans of a
    category. *)
Definition zsum (l : list Z) : Z := fold_right Z.add 0%Z l.

Definition count_category (c : string) (beans : list assessment) : nat :=
  List.length (filter (fun b => String.eqb (quality_category b) c) beans).

(** [category in category_count] for the initial keys. *)
Definition known_category (b : assessment) : bool :=
  existsb (fun c => String.eqb (quality_category b) c) QUALITY_CATEGORIES.

End Grading.

(* ------------------------------------------------------------------ *)
(** ** cv_service.py : CVService *)

Module CV.
Import Py.
Open Scope float_scope.

Section CVService.
(** Images and contours are OpenCV/NumPy objects. *)
Variables image contour : Type.
(** [cvtColor] (when 3 channels), Otsu [threshold] with [THRESH_BINARY_INV],
    [morphologyEx(MORPH_CLOSE)] and [findContours(RETR_EXTERNAL)]. *)
Variable find_contours : image -> list contour.
Variable contourArea : contour -> float.
Variable arcLength : contour -> float.
(** The C library's [pow(x, 2.0)] behind [perimeter ** 2]: the result and
    whether [errno] was set to [ERANGE].  It is not required to be correctly
    rounded (glibc's is not). *)
Variable libm_pow : float -> float * bool.
(** [boundingRect] followed by the slice [image[y:y+h, x:x+w]]. *)
Variable crop : image -> contour -> image.
(** [cvtColor] (when 3 channels), [GaussianBlur((5,5))] and
    [Canny(50, 150)]: the uint8 pixels of the edge map, flattened, or [None]
    when OpenCV raises [cv2.error], as it does on an empty crop. *)
Variable canny_edges : image -> option (list Z).

(** One entry of [beans_data]. *)
Record bean := { bean_image : image; bean_contour : contour }.

Definition segment_step (img : image) (beans_data : list bean) (c : contour) : list bean :=
  let area := contourArea c in
  if float_of_Z 500 <? area
  then beans_data ++ [{| bean_image := crop img c; bean_contour := c |}]
  else beans_data.

Definition segment_beans (img : image) : list bean :=
  fold_left (segment_step img) (find_contours img) [].

Definition np_pi : float := 3.141592653589793.

(** [4 * np.pi * area / (perimeter ** 2) if perimeter > 0 else 0];
    [None] when an arithmetic exception is raised. *)
Definition circularity_of (area perimeter : float) : option value :=
  if 0 <? perimeter then
    match py_pow2 libm_pow perimeter with
    | None => None
    | Some p2 =>
        match py_div (4 * np_pi * area) p2 with
        | None => None
        | Some r => Some (VFloat r)
        end
    end
  else Some (VInt 0).

(** [np.sum(edges) / (255 * edges.size) if edges.size > 0 else 0]: the
    uint8 sum is accumulated as a 64-bit integer and both operands of the
    true division are converted to float64. *)
Definition edge_density (edges : list Z) : value :=
  let size := Z.of_nat (List.length edges) in
  if (size >? 0)%Z
  then VFloat (float_of_Z (fold_left Z.add edges 0%Z) / float_of_Z (255 * size))
  else VInt 0.

(** [edge_density > 0.05]. *)
Definition over_crack_threshold (d : value) : bool :=
  match d with
  | VFloat f => 0.05 <? f
  | VInt z => 0.05 <? float_of_Z z
  | _ => false
  end.

Definition py_str_bool (b : bool) : string :=
  if b then "True"%string else "False"%string.

Definition extract_all_features (img : image) (c : contour) : option (list (string * value)) :=
  let area := contourArea c in
  let perimeter := arcLength c in
  match circularity_of area perimeter with
  | None => None
  | Some circularity =>
      let features := [("area", VFloat area); ("perimeter", VFloat perimeter);
                       ("circularity", circularity)]%string in
      match canny_edges img with
      | None => None
      | Some edges =>
          let has_cracks_bool := over_crack_threshold (edge_density edges) in
          Some (features ++ [("has_cracks", VStr (py_str_bool has_cracks_bool))]%string)
      end
  end.
End CVService.

End CV.

(* ------------------------------------------------------------------ *)
(** ** ml_predictor_service.py : MLPredictorService.predict_color_percentages *)

Module ML.
Import Py.
Open Scope float_scope.

Section Predictor.
Variables image model : Type.
(** [cnn_model.predict(np.expand_dims(processed_image / 255.0, 0), verbose=0)[0]]:
    the raw class scores, or [None] when this raises. *)
Variable run_model : model -> image -> option (list float).

(** The loop [predictions[color_class] = round(raw_predictions[i].item(), 3)];
    [None] is the [IndexError] of a short score vector. *)
Fixpoint fill_predictions (raw : list float) (classes : list string) (i : nat)
    (predictions : list (string * float)) : option (list (string * float)) :=
  match classes with
  | [] => Some predictions
  | color_class :: rest =>
      match nth_error raw i with
      | None => None
      | Some r => fill_predictions raw rest (S i) (setitem predictions color_class (round3 r))
      end
  end.

(** Renormalisation to 100, only when the rounded total is positive. *)
Definition normalize_to_100 (predictions : list (string * float)) : list (string * float) :=
  let total_prob := py_sum (map snd predictions) in
  if 0 <? total_prob
  then map (fun kv => (fst kv, (snd kv / total_prob) * 100)) predictions
  else predictions.

(** [self.cnn_model] is [None] when loading failed; the [try] body returns
    [None] on any exception. *)
Definition predict_color_percentages (cnn_model : option model) (color_classes : list string)
    (processed_image : image) : option (list (string * float)) :=
  match cnn_model with
  | None => None
  | Some m =>
      match run_model m processed_image with
      | None => None
      | Some raw_predictions =>
          match fill_predictions raw_predictions color_classes 0 [] with
          | None => None
          | Some predictions => Some (normalize_to_100 predictions)
          end
      end
  end.
End Predictor.

End ML.

(* ------------------------------------------------------------------ *)
(** ** Real-number reading of binary64 values *)

Module FloatModel.
Local Open Scope R_scope.

(** [2 ^ e] over the reals. *)
Definition bpow (e : Z) : R := powerRZ 2 e.

(** Value of a nonnegative binary float (the sign is ignored). *)
Definition uval (f : spec_float) : R :=
  match f with S754_finite _ m e => IZR (Zpos m) * bpow e | _ => 0 end.

(** Signed value of a binary float; infinities and NaN are read as [0]. *)
Definition sf_val (f : spec_float) : R :=
  match f with
  | S754_finite s m e => (if s then -1 else 1) * IZR (Zpos m) * bpow e
  | _ => 0
  end.

(** Nonnegative finite values (both zeros included). *)
Definition nnf (f : spec_float) : Prop :=
  match f with
  | S754_zero _ => True
  | S754_finite false _ _ => True
  | _ => False
  end.

(** Error allowance of one rounding: a relative part and an absolute part
    for the subnormal range. *)
Definition err (x : R) : R := bpow (-50) * x + bpow (-1072).

(** A [pow(x, 2.0)] of the C library accurate at [x]: it leaves [errno]
    alone and returns a nonnegative float within one rounding allowance
    [err] of the exact square.  glibc's [pow] is within one unit in the last
    place, far inside this allowance. *)
Definition pow2_accurate (libm_pow : float -> float * bool) (x : float) : Prop :=
  snd (libm_pow x) = false
  /\ nnf (Prim2SF (fst (libm_pow x)))
  /\ Rabs (uval (Prim2SF (fst (libm_pow x))) - uval (Prim2SF x) * uval (Prim2SF x))
     <= err (uval (Prim2SF x) * uval (Prim2SF x)).

(** The state of a right shift: [m] is the integer part of the scaled value
    [y], and the round and sticky bits are both clear exactly when no
    nonzero bit was lost. *)
Definition shr_inv (mrs : shr_record) (y : R) : Prop :=
  (0 <= shr_m mrs)%Z /\ IZR (shr_m mrs) <= y < IZR (shr_m mrs) + 1 /\
  (orb (shr_r mrs) (shr_s mrs) = false <-> y = IZR (shr_m mrs)).

End FloatModel.

(* ------------------------------------------------------------------ *)
(** ** classification_session.py : ClassificationSession *)

Module Session.
Import Py Grading.

Inductive SessionStatus := STARTED | IN_PROGRESS | COMPLETED | FAILED.

Section ClassificationSession.
(** [datetime.now(UTC)] values. *)
Variable timestamp : Type.

(** The mapped columns that [complete] and [fail] touch, with the
    identifying ones; [classification_result] is the JSON column, holding
    one of the dicts [generate_batch_report] returns, or [NULL]. *)
Record classification_session := {
  session_id_vo : string;
  coffee_lot_id : Z;
  user_id : Z;
  status : SessionStatus;
  total_grains_analyzed : Z;
  processing_time_seconds : option float;
  classification_result : option batch_result;
  completed_at : option timestamp
}.

(** [report.get('total_beans_analyzed', 0)]: the error dict has no such key. *)
Definition report_total_beans (report : batch_result) : Z :=
  match report with
  | BatchError _ => 0%Z
  | BatchOk r => total_beans_analyzed r
  end.

Definition complete (s : classification_session) (report : batch_result)
    (time_taken : float) (now : timestamp) : classification_session :=
  {| session_id_vo := session_id_vo s;
     coffee_lot_id := coffee_lot_id s;
     user_id := user_id s;
     status := COMPLETED;
     classification_result := Some report;
     total_grains_analyzed := report_total_beans report;
     processing_time_seconds := Some time_taken;
     completed_at := Some now |}.

Definition fail (s : classification_session) (reason : string) (now : timestamp)
  : classification_session :=
  {| session_id_vo := session_id_vo s;
     coffee_lot_id := coffee_lot_id s;
     user_id := user_id s;
     status := FAILED;
     classification_result := Some (BatchError reason);
     total_grains_analyzed := total_grains_analyzed s;
     processing_time_seconds := processing_time_seconds s;
     completed_at := Some now |}.
End ClassificationSession.

End Session.

(* ------------------------------------------------------------------ *)
(** ** ml_predictor_service.py : _download_model_from_blob and _load_model *)

Module ModelLoader.

(** The observable effects of loading: the [keras.models.load_model] calls,
    the removal of a corrupt file, the HTTP request and the pause. *)
Inductive loader_event :=
| ELoadLocal
| ERemove
| ERequest (url : string)
| ESleep
| ELoadDownloaded.

Section Loader.
Variable model : Type.

(** What the loader observes: whether [self.model_path] exists, the result
    of loading it ([None] when [load_model] raises), [settings.MODEL_BLOB_URL],
    whether the streamed download and the write succeed, and the result of
    loading the downloaded file. *)
Record loader_env := {
  path_exists : bool;
  load_local : option model;
  model_blob_url : string;
  fetch_ok : bool;
  load_downloaded : option model
}.

Definition PLACEHOLDER_URL : string := "https://your-blob-storage-url-here".

(** [not model_blob_url or model_blob_url == PLACEHOLDER_URL] returns
    [False] before any request; otherwise one [requests.get], whose failure
    (or any other exception) is caught and gives [False]. *)
Definition download_model_from_blob (env : loader_env) : bool * list loader_event :=
  let url := model_blob_url env in
  if String.eqb url "" || String.eqb url PLACEHOLDER_URL then (false, [])
  else (fetch_ok env, [ERequest url]).

Definition load_model (env : loader_env) : option model * list loader_event :=
  let '(local, ev1) :=
    if path_exists env then
      match load_local env with
      | Some m => (Some m, [ELoadLocal])
      | None => (None, [ELoadLocal; ERemove])
      end
    else (None, []) in
  match local with
  | Some m => (Some m, ev1)
  | None =>
      let '(ok, ev2) := download_model_from_blob env in
      if ok then (load_downloaded env, ev1 ++ ev2 ++ [ESleep; ELoadDownloaded])
      else (None, ev1 ++ ev2)
  end.
End Loader.

End ModelLoader.

(* ================================================================== *)
(** * Properties *)

(** ** Order facts on binary64, from the specification of the primitive
    comparisons ([leb_spec]). *)
Module FloatOrder.

Lemma Pos_compare_cont_eq (m1 m2 : positive) :
  Pos.compare_cont Eq m1 m2 = Pos.compare m1 m2.
Proof. reflexivity. Qed.

Lemma SFleb_trans (x y z : spec_float) :
  SFleb x y = true -> SFleb y z = true -> SFleb x z = true.
Proof.
  unfold SFleb, SFcompare.
  destruct x as [sx|sx| |sx mx ex], y as [sy|sy| |sy my ey], z as [sz|sz| |sz mz ez];
    try destruct sx; try destruct sy; try destruct sz; try discriminate; auto;
    rewrite ?Pos_compare_cont_eq;
    repeat match goal with
    | |- context [Z.compare ?a ?b] => destruct (Z.compare_spec a b)
    | |- context [Pos.compare_cont Eq ?a ?b] =>
        change (Pos.compare_cont Eq a b) with (Pos.compare a b)
    | |- context [Pos.compare ?a ?b] => destruct (Pos.compare_spec a b)
    end; subst; simpl; try discriminate; auto; try lia.
Qed.

Lemma leb_trans (x y z : float) :
  (x <=? y)%float = true -> (y <=? z)%float = true -> (x <=? z)%float = true.
Proof. rewrite !leb_spec. apply SFleb_trans. Qed.

End FloatOrder.

(** ** Shape score *)
Section ShapeScore.
Import Py QualityModels Grading.
Open Scope float_scope.

(** The two penalties of [_evaluate_shape_quality], in double precision:
    [1.0 - 0.3] is the double [0.7], [1.0 - 0.2] the double [0.8], and
    [1.0 - 0.3 - 0.2] is [0.49999999999999994], one ulp below [0.5]. *)
Lemma shape_penalty_values :
  1.0 - 0.3 = 0.7 /\ 1.0 - 0.2 = 0.8 /\ 1.0 - 0.3 - 0.2 = 0.49999999999999994
  /\ (1.0 - 0.3 - 0.2 <? 0.5) = true.
Proof. vm_compute. repeat split; reflexivity. Qed.

Lemma evaluate_shape_quality_cases (feats : features) (s : float) :
  evaluate_shape_quality feats = Some s ->
  (s = 1.0 \/ s = 0.7 \/ s = 0.8 \/ s = 0.49999999999999994) /\ (0 <? s) = true.
Proof.
  unfold evaluate_shape_quality.
  destruct (lt_float _ _) as [[|]|]; [| |discriminate];
    destruct (truthy _); intro H; injection H as <-; vm_compute; auto 10.
Qed.

(** C10 (corrected).  Whenever [_evaluate_shape_quality] returns (it raises
    [TypeError] when [circularity] is not a number), its result is one of the
    doubles 1.0, 0.7, 0.8 or 0.49999999999999994 ([1.0-0.3-0.2] in double
    precision), which are all positive, so [max(0.0, .)] never alters it. *)
Theorem shape_score_values (feats : features) (s : float) :
  evaluate_shape_quality feats = Some s ->
  (s = 1.0 \/ s = 0.7 \/ s = 0.8 \/ s = 0.49999999999999994)
  /\ (0 <? s) = true /\ py_max 0.0 s = s.
Proof.
  intro H. destruct (evaluate_shape_quality_cases feats s H) as [Hv Hpos].
  split; [exact Hv|split; [exact Hpos|]]. unfold py_max. now rewrite Hpos.
Qed.

Lemma shape_score_values_witness :
  evaluate_shape_quality [("circularity", VFloat 0.5); ("has_cracks", VBool true)]%string
    = Some 0.49999999999999994
  /\ ((0.49999999999999994 = 1.0 \/ 0.49999999999999994 = 0.7 \/ 0.49999999999999994 = 0.8
       \/ 0.49999999999999994 = 0.49999999999999994)
      /\ (0 <? 0.49999999999999994) = true /\ py_max 0.0 0.49999999999999994 = 0.49999999999999994).
Proof.
  split; [vm_compute; reflexivity|].
  apply (shape_score_values [("circularity", VFloat 0.5); ("has_cracks", VBool true)]%string).
  vm_compute. reflexivity.
Defined.

(** C10: a features dict with a low circularity and a crack flag gets the
    score [0.49999999999999994], which is below [0.5]. *)
Lemma shape_score_below_half :
  evaluate_shape_quality [("circularity", VFloat 0.5); ("has_cracks", VBool true)]%string
    = Some 0.49999999999999994
  /\ (0.49999999999999994 <? 0.5) = true.
Proof. vm_compute. split; reflexivity. Qed.

End ShapeScore.

(** ** Features extracted by CVService and graded *)
Section ExtractedShape.
Import Py QualityModels Grading CV.
Open Scope float_scope.

Lemma circularity_of_number (libm_pow : float -> float * bool) (area perimeter : float)
    (circ : value) :
  circularity_of libm_pow area perimeter = Some circ -> exists b, lt_float circ 0.7 = Some b.
Proof.
  unfold circularity_of. destruct (0 <? perimeter).
  - destruct (py_pow2 _ perimeter); [|discriminate].
    destruct (py_div _ _); [|discriminate].
    intro H; injection H as <-. eexists; reflexivity.
  - intro H; injection H as <-. eexists; reflexivity.
Qed.

(** C1 (code_bug).  [extract_all_features] stores [has_cracks] as the
    string [str(has_cracks_bool)], and [_evaluate_shape_quality] tests it by
    truthiness: ["False"] is a non-empty string, so the crack penalty is
    applied to every extracted bean.  A bean with [circularity >= 0.7] and
    no edges gets [0.8], never [1.0]. *)
Theorem extracted_shape_score_penalised
    (image contour : Type) (contourArea arcLength : contour -> float)
    (libm_pow : float -> float * bool)
    (canny_edges : image -> option (list Z)) (img : image) (c : contour)
    (feats : list (string * value)) :
  extract_all_features image contour contourArea arcLength libm_pow canny_edges img c
    = Some feats ->
  (exists circ, get feats "circularity"%string = Some circ /\ lt_float circ 0.7 = Some false)
    -> evaluate_shape_quality feats = Some 0.8.
Proof.
  unfold extract_all_features.
  destruct (circularity_of _ _ _) as [circ|] eqn:Hc; [|discriminate].
  destruct (canny_edges img) as [edges|]; [|discriminate].
  intro H; injection H as <-. intros [circ' [Hget Hlt]].
  simpl in Hget. injection Hget as <-.
  unfold evaluate_shape_quality, get_default. simpl. rewrite Hlt.
  destruct (over_crack_threshold _); vm_compute; reflexivity.
Qed.

(** A square contour of side [100] ([contourArea] [10000.0], [arcLength]
    [400.0], circularity [pi / 4]) around a blank crop (no Canny edges):
    [400.0 ** 2 = 160000.0] is exact for any [pow]. *)
Lemma extracted_shape_score_penalised_witness :
  let feats := [("area", VFloat 10000.0); ("perimeter", VFloat 400.0);
                ("circularity", VFloat 0.7853981633974483);
                ("has_cracks", VStr "False")]%string in
  extract_all_features unit unit (fun _ => 10000.0) (fun _ => 400.0)
      (fun y => (y * y, false)) (fun _ => Some [0; 0; 0; 0]%Z) tt tt = Some feats
  /\ edge_density [0; 0; 0; 0]%Z = VFloat 0
  /\ evaluate_shape_quality feats = Some 0.8.
Proof.
  intro feats. split; [vm_compute; reflexivity|]. split; [vm_compute; reflexivity|].
  apply (extracted_shape_score_penalised unit unit (fun _ => 10000.0)
           (fun _ => 400.0) (fun y => (y * y, false)) (fun _ => Some [0; 0; 0; 0]%Z) tt tt feats).
  - vm_compute. reflexivity.
  - exists (VFloat 0.7853981633974483). vm_compute. split; reflexivity.
Defined.

End ExtractedShape.

(** ** Fusion and categorisation *)
Section Fusion.
Import Py QualityModels Grading.
Open Scope float_scope.

(** The walk returns the first category whose threshold is [<=] the score,
    or ["C"] when no threshold is (a NaN score). *)
Lemma first_category_spec (ths : list (string * float)) (s : float) :
  (exists pre t post,
      ths = pre ++ (first_category ths s, t) :: post /\ (t <=? s) = true
      /\ Forall (fun p => (snd p <=? s) = false) pre)
  \/ (Forall (fun p => (snd p <=? s) = false) ths /\ first_category ths s = "C"%string).
Proof.
  induction ths as [|[c t] ths IH]; simpl.
  - right. split; [constructor|reflexivity].
  - destruct (t <=? s) eqn:Ht.
    + left. exists [], t, ths. repeat split; auto.
    + destruct IH as [(pre & t' & post & Heq & Ht' & Hpre) | [Hall Hc]].
      * left. exists ((c, t) :: pre), t', post.
        rewrite Heq at 1. repeat split; auto.
      * right. split; [constructor; auto|exact Hc].
Qed.

(** C2: a bean whose unrounded score is [0.8999] (base 0.857, round shape)
    is reported with [final_score] 0.9 but category Premium. *)
Lemma fusion_rounded_score_counterexample :
  exists a,
    calculate_final_quality 0.857 "Light"%string
      [("circularity", VFloat 0.95); ("has_cracks", VBool false)]%string = Some a
    /\ final_score a = 0.9
    /\ quality_category a = "Premium"%string
    /\ determine_quality_category (final_score a) = "Specialty"%string.
Proof. eexists. vm_compute. repeat split; reflexivity. Qed.

(** C2 (corrected).  For every base score and features dict on which the
    shape evaluation does not raise, [final_score] is
    [round(base_score*0.7 + shape_score*0.3, 3)] and [quality_category] is
    the first of Specialty, Premium, A, B, C whose threshold is [<=] the
    UNROUNDED score [base_score*0.7 + shape_score*0.3] (["C"] if none). *)
Theorem fusion_final_score_and_category (base_score : float) (source : string)
    (feats : features) (a : assessment) :
  calculate_final_quality base_score source feats = Some a ->
  exists shape,
    evaluate_shape_quality feats = Some shape /\ shape_score a = shape
    /\ base_quality_score a = base_score
    /\ final_score a = round3 (base_score * 0.7 + shape * 0.3)
    /\ quality_category a = determine_quality_category (base_score * 0.7 + shape * 0.3)
    /\ ((exists pre t post,
           QUALITY_THRESHOLDS = pre ++ (quality_category a, t) :: post
           /\ (t <=? base_score * 0.7 + shape * 0.3) = true
           /\ Forall (fun p => (snd p <=? base_score * 0.7 + shape * 0.3) = false) pre)
        \/ (Forall (fun p => (snd p <=? base_score * 0.7 + shape * 0.3) = false)
              QUALITY_THRESHOLDS
            /\ quality_category a = "C"%string)).
Proof.
  unfold calculate_final_quality.
  destruct (evaluate_shape_quality feats) as [shape|] eqn:Hs; [|discriminate].
  intro H; injection H as <-. exists shape. simpl.
  repeat split; auto. apply first_category_spec.
Qed.

Lemma fusion_final_score_and_category_witness :
  exists a shape,
    calculate_final_quality 0.95 "Light"%string [("circularity", VFloat 0.95)]%string = Some a
    /\ evaluate_shape_quality [("circularity", VFloat 0.95)]%string = Some shape
    /\ final_score a = round3 (0.95 * 0.7 + shape * 0.3)
    /\ quality_category a = "Specialty"%string.
Proof.
  eexists. exists 1.0. split; [vm_compute; reflexivity|].
  destruct (fusion_final_score_and_category 0.95 "Light"%string
              [("circularity", VFloat 0.95)]%string
              {| quality_category := "Specialty"; final_score := 0.965;
                 base_quality_score := 0.95; shape_score := 1.0;
                 source_category := "Light" |}%string)
    as (shape & Hs & _ & _ & Hf & Hc & _).
  - vm_compute. reflexivity.
  - vm_compute in Hs. injection Hs as <-. split; [reflexivity|].
    split; [exact Hf|]. vm_compute. reflexivity.
Defined.

(** The greedy walk at an exact threshold: 0.9 is Specialty. *)
Lemma determine_at_thresholds :
  determine_quality_category 0.9 = "Specialty"%string
  /\ determine_quality_category 0.8 = "Premium"%string
  /\ determine_quality_category 0.7 = "A"%string
  /\ determine_quality_category 0.6 = "B"%string
  /\ determine_quality_category 0.0 = "C"%string.
Proof. vm_compute. repeat split; reflexivity. Qed.

End Fusion.

(** ** Monotonicity of the categorisation *)
Section Monotone.
Import QualityModels Grading.
Open Scope float_scope.

(** C7.  For scores [s1 <= s2] the category of [s2] is at least as good as
    that of [s1] in the order Specialty > Premium > A > B > C (a smaller
    rank is a better category). *)
Theorem determine_quality_category_monotone (s1 s2 : float) :
  (s1 <=? s2) = true ->
  (category_rank (determine_quality_category s2)
     <= category_rank (determine_quality_category s1))%nat.
Proof.
  intro H12. unfold determine_quality_category, QUALITY_THRESHOLDS. simpl.
  destruct (0.9 <=? s1) eqn:H9.
  { rewrite (FloatOrder.leb_trans _ _ _ H9 H12). reflexivity. }
  destruct (0.8 <=? s1) eqn:H8.
  { rewrite (FloatOrder.leb_trans _ _ _ H8 H12).
    destruct (0.9 <=? s2); vm_compute; lia. }
  destruct (0.7 <=? s1) eqn:H7.
  { rewrite (FloatOrder.leb_trans _ _ _ H7 H12).
    destruct (0.9 <=? s2), (0.8 <=? s2); vm_compute; lia. }
  destruct (0.6 <=? s1) eqn:H6.
  { rewrite (FloatOrder.leb_trans _ _ _ H6 H12).
    destruct (0.9 <=? s2), (0.8 <=? s2), (0.7 <=? s2); vm_compute; lia. }
  destruct (0.9 <=? s2), (0.8 <=? s2), (0.7 <=? s2), (0.6 <=? s2), (0.0 <=? s1), (0.0 <=? s2);
    vm_compute; lia.
Qed.

Lemma determine_quality_category_monotone_witness :
  (0.85 <=? 0.9) = true
  /\ (category_rank (determine_quality_category 0.9)
        <= category_rank (determine_quality_category 0.85))%nat.
Proof.
  split; [vm_compute; reflexivity|].
  apply determine_quality_category_monotone. vm_compute. reflexivity.
Defined.

End Monotone.

(** ** Batch report *)
Section Batch.
Import Py QualityModels Grading.
Open Scope float_scope.

(** C5.  An empty batch gives the explicit error value (no exception: the
    function is total), and no non-empty batch gives that value. *)
Theorem batch_report_empty_is_error :
  generate_batch_report [] = BatchError "No se analizaron granos"%string
  /\ forall beans, beans <> [] -> generate_batch_report beans <> generate_batch_report [].
Proof.
  split; [reflexivity|].
  intros beans Hne. unfold generate_batch_report.
  destruct beans as [|b beans]; [contradiction|]. simpl.
  rewrite Zpos_P_of_succ_nat. simpl.
  destruct (Z.succ (Z.of_nat (List.length beans)) =? 0)%Z eqn:Hz;
    [apply Z.eqb_eq in Hz; lia|]. discriminate.
Qed.

Lemma batch_report_empty_is_error_witness :
  generate_batch_report [] = BatchError "No se analizaron granos"%string
  /\ [{| quality_category := "A"; final_score := 0.75; base_quality_score := 0.8;
         shape_score := 0.7; source_category := "Medium" |}]%string <> []
  /\ generate_batch_report
       [{| quality_category := "A"; final_score := 0.75; base_quality_score := 0.8;
           shape_score := 0.7; source_category := "Medium" |}]%string
     <> generate_batch_report [].
Proof.
  destruct batch_report_empty_is_error as [H0 Hne].
  split; [exact H0|]. split; [discriminate|]. apply Hne. discriminate.
Defined.

End Batch.

(** ** Category counts of the batch report *)
Module BatchCounts.
Import Py QualityModels Grading.

Lemma get_setitem {A} (d : list (string * A)) (k k' : string) (v : A) :
  get (setitem d k v) k' = if String.eqb k' k then Some v else get d k'.
Proof.
  induction d as [|[k1 v1] d IH]; simpl.
  - destruct (String.eqb k' k); reflexivity.
  - destruct (String.eqb k k1) eqn:Hk.
    + apply String.eqb_eq in Hk. subst k1. simpl.
      destruct (String.eqb k' k); reflexivity.
    + simpl. destruct (String.eqb k' k1) eqn:Hk1.
      * apply String.eqb_eq in Hk1. subst k1.
        destruct (String.eqb k' k) eqn:Hk'; [|reflexivity].
        apply String.eqb_eq in Hk'. subst. rewrite String.eqb_refl in Hk. discriminate.
      * exact IH.
Qed.

Lemma keys_setitem {A} (d : list (string * A)) (k : string) (v v0 : A) :
  get d k = Some v0 -> map fst (setitem d k v) = map fst d.
Proof.
  induction d as [|[k1 v1] d IH]; simpl; [discriminate|].
  destruct (String.eqb k k1); simpl; [reflexivity|].
  intro H. f_equal. apply IH. exact H.
Qed.

Lemma zsum_setitem (d : list (string * Z)) (k : string) (n : Z) :
  get d k = Some n -> zsum (map snd (setitem d k (n + 1)%Z)) = (zsum (map snd d) + 1)%Z.
Proof.
  induction d as [|[k1 v1] d IH]; simpl; [discriminate|].
  destruct (String.eqb k k1).
  - intro H. injection H as <-. simpl. lia.
  - intro H. simpl. rewrite (IH H). lia.
Qed.

Lemma count_step_get (d : list (string * Z)) (b : assessment) (c : string) :
  get (count_step d b) c
  = option_map (fun n => (n + if String.eqb (quality_category b) c then 1 else 0)%Z)
      (get d c).
Proof.
  unfold count_step.
  destruct (get d (quality_category b)) as [n|] eqn:Hb.
  - rewrite get_setitem.
    destruct (String.eqb c (quality_category b)) eqn:Hc.
    + apply String.eqb_eq in Hc. subst c. rewrite Hb, String.eqb_refl. reflexivity.
    + destruct (String.eqb (quality_category b) c) eqn:Hc'.
      * apply String.eqb_eq in Hc'. subst c. rewrite String.eqb_refl in Hc. discriminate.
      * destruct (get d c); simpl; f_equal; lia.
  - destruct (String.eqb (quality_category b) c) eqn:Hc.
    + apply String.eqb_eq in Hc. subst c. rewrite Hb. reflexivity.
    + destruct (get d c); simpl; f_equal; lia.
Qed.

Lemma fold_count_get (beans : list assessment) (d : list (string * Z)) (c : string) :
  get (fold_left count_step beans d) c
  = option_map (fun n => (n + Z.of_nat (count_category c beans))%Z) (get d c).
Proof.
  revert d. induction beans as [|b beans IH]; intro d; simpl.
  - destruct (get d c); simpl; f_equal; lia.
  - rewrite IH, count_step_get. unfold count_category. simpl.
    destruct (String.eqb (quality_category b) c); destruct (get d c); simpl; f_equal;
      fold (count_category c beans); lia.
Qed.

Lemma fold_count_keys (beans : list assessment) (d : list (string * Z)) :
  map fst (fold_left count_step beans d) = map fst d.
Proof.
  revert d. induction beans as [|b beans IH]; intro d; simpl; [reflexivity|].
  rewrite IH. unfold count_step.
  destruct (get d (quality_category b)) as [n|] eqn:Hb; [|reflexivity].
  exact (keys_setitem d _ _ _ Hb).
Qed.

Lemma fold_count_sum (beans : list assessment) (d : list (string * Z)) :
  Forall (fun b => get d (quality_category b) <> None) beans ->
  zsum (map snd (fold_left count_step beans d))
  = (zsum (map snd d) + Z.of_nat (List.length beans))%Z.
Proof.
  revert d. induction beans as [|b beans IH]; intros d Hall; simpl; [lia|].
  inversion Hall as [|b' beans' Hb Hrest]; subst.
  unfold count_step at 2.
  destruct (get d (quality_category b)) as [n|] eqn:Hget; [|contradiction].
  rewrite IH.
  - rewrite (zsum_setitem d _ n Hget). lia.
  - eapply Forall_impl; [|exact Hrest]. intros b' Hb'. simpl in Hb'.
    rewrite get_setitem. destruct (String.eqb _ _); [discriminate|exact Hb'].
Qed.

Lemma initial_counts_get (c : string) :
  In c QUALITY_CATEGORIES -> get (map (fun c => (c, 0%Z)) QUALITY_CATEGORIES) c = Some 0%Z.
Proof.
  simpl. intros [<-|[<-|[<-|[<-|[<-|[]]]]]]; reflexivity.
Qed.

(** C3.  For a non-empty batch whose categories are the fixed ones (as
    [calculate_final_quality] produces), the report counts every fixed
    category (zero when no bean has it), the counts sum to the number of
    beans, the average is [round(sum(final_scores) / N, 3)] and the lot
    category is the greedy walk applied to the mean. *)
Theorem batch_report_distribution (beans : list assessment) :
  beans <> [] ->
  Forall (fun b => In (quality_category b) QUALITY_CATEGORIES) beans ->
  exists r,
    generate_batch_report beans = BatchOk r
    /\ total_beans_analyzed r = Z.of_nat (List.length beans)
    /\ map fst (category_distribution r) = QUALITY_CATEGORIES
    /\ (forall c, In c QUALITY_CATEGORIES ->
          get (category_distribution r) c = Some (Z.of_nat (count_category c beans)))
    /\ zsum (map snd (category_distribution r)) = Z.of_nat (List.length beans)
    /\ average_quality_score r
       = round3 (py_sum (map final_score beans) / float_of_Z (Z.of_nat (List.length beans)))%float
    /\ lot_quality r
       = determine_quality_category
           (py_sum (map final_score beans) / float_of_Z (Z.of_nat (List.length beans)))%float.
Proof.
  intros Hne Hcat. unfold generate_batch_report.
  destruct (Z.of_nat (List.length beans) =? 0)%Z eqn:Hz.
  { apply Z.eqb_eq in Hz. destruct beans; [contradiction|simpl in Hz; lia]. }
  eexists. split; [reflexivity|].
  cbn [total_beans_analyzed category_distribution average_quality_score lot_quality].
  split; [reflexivity|]. split; [rewrite fold_count_keys; reflexivity|].
  split.
  { intros c Hc. rewrite fold_count_get, (initial_counts_get c Hc). reflexivity. }
  split; [|split; reflexivity].
  rewrite fold_count_sum.
  - reflexivity.
  - eapply Forall_impl; [|exact Hcat]. intros b Hb.
    rewrite (initial_counts_get _ Hb). discriminate.
Qed.

Lemma batch_report_distribution_witness :
  let sample_lot := [{| quality_category := "Specialty"; final_score := 0.95; base_quality_score := 0.95;
      shape_score := 1.0; source_category := "Light" |};
   {| quality_category := "Premium"; final_score := 0.85; base_quality_score := 0.85;
      shape_score := 0.8; source_category := "Medium" |};
   {| quality_category := "B"; final_score := 0.65; base_quality_score := 0.6;
      shape_score := 0.8; source_category := "Medium" |}]%string%float in
  exists r, generate_batch_report sample_lot = BatchOk r
    /\ zsum (map snd (category_distribution r)) = 3%Z
    /\ average_quality_score r = 0.817%float
    /\ lot_quality r = "Premium"%string.
Proof.
  intro sample_lot.
  destruct (batch_report_distribution sample_lot) as (r & Hr & _ & _ & _ & Hsum & Havg & Hlot).
  - discriminate.
  - repeat apply Forall_cons; try apply Forall_nil; simpl; auto 10.
  - exists r. split; [exact Hr|]. split; [exact Hsum|].
    rewrite Havg, Hlot. vm_compute. split; reflexivity.
Defined.

End BatchCounts.

(** ** Predictor failure policy *)
Section PredictorFailure.
Import Py ML.

(** C6.  [predict_color_percentages] returns [None] when the model is not
    loaded and when inference raises; in the embedding it is a total
    function, so it never raises. *)
Theorem predict_none_on_failure (image model : Type)
    (run_model : model -> image -> option (list float))
    (color_classes : list string) (img : image) :
  predict_color_percentages image model run_model None color_classes img = None
  /\ (forall m, run_model m img = None ->
        predict_color_percentages image model run_model (Some m) color_classes img = None).
Proof.
  split; [reflexivity|]. intros m Hm. simpl. rewrite Hm. reflexivity.
Qed.

Lemma predict_none_on_failure_witness :
  predict_color_percentages unit unit (fun _ _ => None) None QualityModels.CNN_COLOR_CLASSES tt
    = None
  /\ predict_color_percentages unit unit (fun _ _ => None) (Some tt)
       QualityModels.CNN_COLOR_CLASSES tt = None.
Proof.
  destruct (predict_none_on_failure unit unit (fun _ _ => None)
              QualityModels.CNN_COLOR_CLASSES tt) as [H1 H2].
  split; [exact H1|]. apply H2. reflexivity.
Defined.

End PredictorFailure.

(** ** Segmentation noise filter *)
Section Segmentation.
Import Py CV.
Open Scope float_scope.

Lemma segment_fold (image contour : Type) (contourArea : contour -> float)
    (crop : image -> contour -> image) (img : image) (cs : list contour) acc :
  fold_left (segment_step image contour contourArea crop img) cs acc
  = acc ++ map (fun c => {| bean_image := crop img c; bean_contour := c |})
              (filter (fun c => float_of_Z 500 <? contourArea c) cs).
Proof.
  revert acc. induction cs as [|c cs IH]; intro acc; simpl.
  - rewrite app_nil_r. reflexivity.
  - rewrite IH. unfold segment_step.
    destruct (float_of_Z 500 <? contourArea c); simpl; [|reflexivity].
    rewrite <- app_assoc. reflexivity.
Qed.

(** C9.  [segment_beans] keeps, in contour order, exactly the contours
    whose area is [> 500]: area 500 is dropped, area 501 is kept. *)
Theorem segment_beans_area_filter (image contour : Type)
    (find_contours : image -> list contour) (contourArea : contour -> float)
    (crop : image -> contour -> image) (img : image) :
  map (bean_contour image contour)
      (segment_beans image contour find_contours contourArea crop img)
  = filter (fun c => float_of_Z 500 <? contourArea c) (find_contours img)
  /\ (forall c, contourArea c = 500 ->
        ~ In c (map (bean_contour image contour)
                   (segment_beans image contour find_contours contourArea crop img)))
  /\ (forall c, contourArea c = 501 -> In c (find_contours img) ->
        In c (map (bean_contour image contour)
                 (segment_beans image contour find_contours contourArea crop img))).
Proof.
  assert (Hmap : map (bean_contour image contour)
                   (segment_beans image contour find_contours contourArea crop img)
                 = filter (fun c => float_of_Z 500 <? contourArea c) (find_contours img)).
  { unfold segment_beans. rewrite segment_fold. simpl. rewrite map_map. apply map_id. }
  split; [exact Hmap|]. rewrite Hmap. split.
  - intros c Ha Hin. apply filter_In in Hin. destruct Hin as [_ Hlt].
    rewrite Ha in Hlt. vm_compute in Hlt. discriminate.
  - intros c Ha Hin. apply filter_In. split; [exact Hin|]. rewrite Ha. vm_compute. reflexivity.
Qed.

Lemma segment_beans_area_filter_witness :
  map (bean_contour unit float)
      (segment_beans unit float (fun _ => [500; 501; 12.5]) (fun a => a) (fun _ _ => tt) tt)
  = [501]
  /\ ~ In 500 (map (bean_contour unit float)
           (segment_beans unit float (fun _ => [500; 501; 12.5]) (fun a => a) (fun _ _ => tt) tt))
  /\ In 501 (map (bean_contour unit float)
           (segment_beans unit float (fun _ => [500; 501; 12.5]) (fun a => a) (fun _ _ => tt) tt)).
Proof.
  destruct (segment_beans_area_filter unit float (fun _ => [500; 501; 12.5]) (fun a => a)
              (fun _ _ => tt) tt) as [Hmap [H500 H501]].
  split; [rewrite Hmap; vm_compute; reflexivity|].
  split; [apply H500; reflexivity|].
  apply H501; [reflexivity|simpl; auto].
Defined.

End Segmentation.

(* ------------------------------------------------------------------ *)
(** ** Rounding error of binary64 operations on nonnegative values *)

Module FloatRound.
Import Py FloatModel.
Local Open Scope R_scope.

Lemma Pos_compare_cont_eq' (m1 m2 : positive) :
  Pos.compare_cont Eq m1 m2 = Pos.compare m1 m2.
Proof. reflexivity. Qed.

Lemma bpow_pos (e : Z) : 0 < bpow e.
Proof. apply powerRZ_lt. lra. Qed.

Lemma bpow_add (a b : Z) : bpow (a + b) = bpow a * bpow b.
Proof. apply powerRZ_add. lra. Qed.

Lemma bpow_IZR (e : Z) : (0 <= e)%Z -> bpow e = IZR (2 ^ e).
Proof.
  intro He. destruct e as [|p|p]; [reflexivity| |lia].
  unfold bpow. simpl. rewrite pow_IZR. rewrite positive_nat_Z. reflexivity.
Qed.

Lemma bpow_1 : bpow 1 = 2.
Proof. unfold bpow. simpl. ring. Qed.

Lemma bpow_0 : bpow 0 = 1.
Proof. reflexivity. Qed.

Lemma bpow_le (a b : Z) : (a <= b)%Z -> bpow a <= bpow b.
Proof.
  intro H. replace b with (a + (b - a))%Z by lia. rewrite bpow_add.
  rewrite (bpow_IZR (b - a)) by lia.
  assert (1 <= IZR (2 ^ (b - a))).
  { apply IZR_le. assert (0 < 2 ^ (b - a))%Z by (apply Z.pow_pos_nonneg; lia). lia. }
  pose proof (bpow_pos a). nra.
Qed.

Lemma bpow_lt (a b : Z) : (a < b)%Z -> bpow a < bpow b.
Proof.
  intro H. replace b with ((a + 1) + (b - a - 1))%Z by lia. rewrite !bpow_add, bpow_1.
  pose proof (bpow_le 0 (b - a - 1) ltac:(lia)) as Hle. rewrite bpow_0 in Hle.
  pose proof (bpow_pos a). nra.
Qed.

Lemma bpow_succ (e : Z) : bpow (e + 1) = 2 * bpow e.
Proof. rewrite bpow_add, bpow_1. ring. Qed.

Lemma bpow_opp (e : Z) : bpow (- e) = / bpow e.
Proof. unfold bpow. apply powerRZ_neg'. Qed.

(** Number of binary digits. *)
Lemma pow2_succ (d : Z) : (0 <= d)%Z -> (2 ^ (d + 1) = 2 * 2 ^ d)%Z.
Proof. intro. rewrite Z.pow_add_r by lia. lia. Qed.

Lemma digits2_pos_bounds (p : positive) :
  (2 ^ (Zpos (digits2_pos p) - 1) <= Zpos p < 2 ^ Zpos (digits2_pos p))%Z.
Proof.
  induction p as [p IH|p IH|]; simpl digits2_pos; [| |simpl; lia];
    rewrite Pos2Z.inj_succ; unfold Z.succ;
    replace (Zpos (digits2_pos p) + 1 - 1)%Z with (Zpos (digits2_pos p)) by lia;
    rewrite pow2_succ by lia;
    pose proof (pow2_succ (Zpos (digits2_pos p) - 1) ltac:(lia)) as E;
    replace (Zpos (digits2_pos p) - 1 + 1)%Z with (Zpos (digits2_pos p)) in E by lia;
    [pose proof (Pos2Z.inj_xI p) | pose proof (Pos2Z.inj_xO p)]; lia.
Qed.

Lemma Zdigits2_bounds (m : Z) :
  (0 <= m)%Z ->
  (0 <= Zdigits2 m)%Z /\ (m < 2 ^ Zdigits2 m)%Z
  /\ ((0 < m)%Z -> (2 ^ (Zdigits2 m - 1) <= m)%Z /\ (1 <= Zdigits2 m)%Z).
Proof.
  intro Hm. destruct m as [|p|p]; [simpl; lia| |lia].
  change (Zdigits2 (Zpos p)) with (Zpos (digits2_pos p)).
  pose proof (digits2_pos_bounds p). lia.
Qed.


Lemma fexp_eq (e : Z) : fexp prec emax e = Z.max (e - 53) (-1074).
Proof. reflexivity. Qed.

Lemma IZR_pow2 (e : Z) : (0 <= e)%Z -> IZR (2 ^ e) = bpow e.
Proof. intro. symmetry. apply bpow_IZR. assumption. Qed.


Lemma shr_1_inv (mrs : shr_record) (y : R) :
  shr_inv mrs y -> shr_inv (shr_1 mrs) (y / 2).
Proof.
  destruct mrs as [m r s]. unfold shr_inv; simpl.
  intros [Hm [[Hl Hu] He]].
  destruct m as [|p|p]; [| |lia].
  - simpl. split; [lia|]. split; [lra|]. rewrite He. split; intro; lra.
  - destruct p as [p|p|]; simpl.
    + rewrite Pos2Z.inj_xI, plus_IZR, mult_IZR in Hl, Hu.
      split; [lia|]. split; [lra|]. split; intro H; [discriminate|lra].
    + rewrite Pos2Z.inj_xO, mult_IZR in Hl, Hu. rewrite Pos2Z.inj_xO, mult_IZR in He.
      split; [lia|]. split; [lra|]. rewrite He. split; intro; lra.
    + split; [lia|]. split; [lra|]. split; intro H; [discriminate|lra].
Qed.

Lemma bpow_xI (p : positive) : bpow (Zpos p~1) = 2 * bpow (Zpos p) * bpow (Zpos p).
Proof.
  rewrite Pos2Z.inj_xI. replace (2 * Zpos p + 1)%Z with (1 + Zpos p + Zpos p)%Z by lia.
  rewrite !bpow_add, bpow_1. ring.
Qed.

Lemma bpow_xO (p : positive) : bpow (Zpos p~0) = bpow (Zpos p) * bpow (Zpos p).
Proof.
  rewrite Pos2Z.inj_xO. replace (2 * Zpos p)%Z with (Zpos p + Zpos p)%Z by lia.
  rewrite !bpow_add. ring.
Qed.

Lemma iter_shr_1_inv (p : positive) : forall mrs y,
  shr_inv mrs y -> shr_inv (SpecFloat.iter_pos shr_1 p mrs) (y / bpow (Zpos p)).
Proof.
  induction p as [p IH|p IH|]; intros mrs y H; cbn [SpecFloat.iter_pos].
  - pose proof (IH _ _ (IH _ _ (shr_1_inv _ _ H))) as H'.
    replace (y / bpow (Zpos p~1)) with (y / 2 / bpow (Zpos p) / bpow (Zpos p)); [exact H'|].
    rewrite bpow_xI. pose proof (bpow_pos (Zpos p)). field. lra.
  - pose proof (IH _ _ (IH _ _ H)) as H'.
    replace (y / bpow (Zpos p~0)) with (y / bpow (Zpos p) / bpow (Zpos p)); [exact H'|].
    rewrite bpow_xO. pose proof (bpow_pos (Zpos p)). field. lra.
  - replace (y / bpow 1) with (y / 2) by (rewrite bpow_1; reflexivity).
    apply shr_1_inv; assumption.
Qed.

Lemma shr_fexp_inv (M E : Z) (l : location) (x : R) :
  shr_inv (shr_record_of_loc M l) (x / bpow E) ->
  shr_inv (fst (shr_fexp prec emax M E l)) (x / bpow (snd (shr_fexp prec emax M E l)))
  /\ snd (shr_fexp prec emax M E l) = Z.max (fexp prec emax (Zdigits2 M + E)) E.
Proof.
  intro H. unfold shr_fexp, shr.
  destruct (fexp prec emax (Zdigits2 M + E) - E)%Z as [|p|p] eqn:Hn; simpl.
  - split; [assumption|lia].
  - split; [|lia].
    replace (x / bpow (E + Zpos p)) with (x / bpow E / bpow (Zpos p)).
    + apply iter_shr_1_inv. assumption.
    + rewrite bpow_add. pose proof (bpow_pos E). pose proof (bpow_pos (Zpos p)). field. lra.
  - split; [assumption|lia].
Qed.

(** Rounding to nearest even moves the integer part up by at most one, and
    only when bits were lost. *)
Lemma round_nearest_even_inv (mrs : shr_record) (y : R) :
  shr_inv mrs y ->
  let m2 := round_nearest_even (shr_m mrs) (loc_of_shr_record mrs) in
  (0 <= m2)%Z /\ Rabs (IZR m2 - y) < 1
  /\ (orb (shr_r mrs) (shr_s mrs) = false -> m2 = shr_m mrs)
  /\ (forall K : Z, y <= IZR K -> (m2 <= K)%Z).
Proof.
  destruct mrs as [m r s]. unfold shr_inv; simpl. intros [Hm [[Hl Hu] He]].
  assert (Hup : forall K, y <= IZR K -> (m <= K)%Z).
  { intros K HK. apply le_IZR. lra. }
  assert (Hup1 : forall K, y <= IZR K -> y <> IZR m -> (m + 1 <= K)%Z).
  { intros K HK Hne. assert (IZR m < IZR K) by lra. apply lt_IZR in H. lia. }
  assert (Hplus : orb r s = true -> Rabs (IZR (m + 1) - y) < 1
                  /\ (forall K, y <= IZR K -> (m + 1 <= K)%Z)).
  { intro Hrs. assert (y <> IZR m).
    { intro E. apply He in E. rewrite E in Hrs. discriminate. }
    split; [rewrite plus_IZR; apply Rabs_def1; lra|].
    intros K HK. apply Hup1; assumption. }
  assert (Hstay : Rabs (IZR m - y) < 1) by (apply Rabs_def1; lra).
  destruct r, s; simpl.
  - destruct (Hplus eq_refl). repeat split; auto; [lia|discriminate].
  - destruct (Z.even m).
    + repeat split; auto.
    + destruct (Hplus eq_refl). repeat split; auto; [lia|discriminate].
  - repeat split; auto.
  - repeat split; auto.
Qed.



Lemma bpow_IZR_le (m d : Z) : (0 <= d)%Z -> (2 ^ d <= m)%Z -> bpow d <= IZR m.
Proof. intros. rewrite bpow_IZR by assumption. apply IZR_le. assumption. Qed.

Lemma IZR_lt_bpow (m d : Z) : (0 <= d)%Z -> (m < 2 ^ d)%Z -> IZR m < bpow d.
Proof. intros. rewrite bpow_IZR by assumption. apply IZR_lt. assumption. Qed.

(** A positive integer with [d] digits, scaled by [2^e], is at least
    [2^(d - 1 + e)]. *)
Lemma digits_lower (m e : Z) :
  (0 < m)%Z -> bpow (Zdigits2 m - 1 + e) <= IZR m * bpow e.
Proof.
  intro Hm. destruct (Zdigits2_bounds m ltac:(lia)) as [Hd [_ Hpos]].
  destruct (Hpos Hm) as [Hlo H1].
  rewrite bpow_add. pose proof (bpow_pos e).
  pose proof (bpow_IZR_le m (Zdigits2 m - 1) ltac:(lia) Hlo). nra.
Qed.

Lemma digits_upper (m e : Z) :
  (0 <= m)%Z -> IZR m * bpow e < bpow (Zdigits2 m + e).
Proof.
  intro Hm. destruct (Zdigits2_bounds m Hm) as [Hd [Hup _]].
  rewrite bpow_add. pose proof (bpow_pos e).
  pose proof (IZR_lt_bpow m (Zdigits2 m) Hd Hup). nra.
Qed.

Lemma fexp_bound (m e : Z) :
  (0 < m)%Z ->
  bpow (fexp prec emax (Zdigits2 m + e)) <= bpow (-52) * (IZR m * bpow e) + bpow (-1074).
Proof.
  intro Hm. rewrite fexp_eq. pose proof (digits_lower m e Hm) as Hl.
  pose proof (bpow_pos (-52)).
  destruct (Z.max_spec (Zdigits2 m + e - 53) (-1074)) as [[_ ->]|[_ ->]].
  - assert (0 <= IZR m * bpow e) by (pose proof (bpow_pos e); apply Rmult_le_pos; [apply IZR_le; lia|lra]).
    nra.
  - replace (Zdigits2 m + e - 53)%Z with (-52 + (Zdigits2 m - 1 + e))%Z by lia.
    rewrite bpow_add. pose proof (bpow_pos (-1074)). nra.
Qed.

Lemma shr_fexp_exact (M E : Z) :
  (fexp prec emax (Zdigits2 M + E) <= E)%Z ->
  shr_fexp prec emax M E loc_Exact = (Build_shr_record M false false, E).
Proof.
  intro H. unfold shr_fexp, shr. simpl.
  destruct (fexp prec emax (Zdigits2 M + E) - E)%Z eqn:Hn; [reflexivity|lia|reflexivity].
Qed.

(** The rounding core: two right shifts around one rounding step. *)
Lemma binary_round_aux_spec (sx : bool) (M E : Z) (l : location) (x : R) :
  shr_inv (shr_record_of_loc M l) (x / bpow E) ->
  exists m3 e2 : Z,
    (0 <= m3)%Z /\
    binary_round_aux prec emax sx M E l =
      match m3 with
      | Z0 => S754_zero sx
      | Zpos m => if (e2 <=? emax - prec)%Z then S754_finite sx m e2 else S754_infinity sx
      | Zneg _ => S754_nan
      end /\
    Rabs (IZR m3 * bpow e2 - x)
      < 2 * bpow (Z.max (fexp prec emax (Zdigits2 M + E)) E) + bpow (-52) * x + bpow (-1074) /\
    (l = loc_Exact -> (fexp prec emax (Zdigits2 M + E) <= E)%Z -> IZR m3 * bpow e2 = x) /\
    (forall k, (Z.max (fexp prec emax (Zdigits2 M + E)) E <= k)%Z -> x <= bpow k ->
       IZR m3 * bpow e2 <= bpow k).
Proof.
  intro Hinv. unfold binary_round_aux.
  pose proof (shr_fexp_inv M E l x Hinv) as [Hi1 He1].
  destruct (shr_fexp prec emax M E l) as [mrs1 e1] eqn:H1. simpl in Hi1, He1.
  rewrite <- He1.
  pose proof (round_nearest_even_inv mrs1 _ Hi1) as [Hm2 [Hd2 [Hex2 Hmono2]]].
  set (m2 := round_nearest_even (shr_m mrs1) (loc_of_shr_record mrs1)) in *.
  assert (Hi2pre : shr_inv (shr_record_of_loc m2 loc_Exact) (IZR m2 * bpow e1 / bpow e1)).
  { unfold shr_inv; simpl. pose proof (bpow_pos e1).
    replace (IZR m2 * bpow e1 / bpow e1) with (IZR m2) by (field; lra).
    split; [assumption|]. split; [lra|]. tauto. }
  pose proof (shr_fexp_inv m2 e1 loc_Exact _ Hi2pre) as [Hi2 He2].
  destruct (shr_fexp prec emax m2 e1 loc_Exact) as [mrs2 e2] eqn:H2. simpl in Hi2, He2.
  destruct Hi2 as [Hm3 [[Hl3 Hu3] _]].
  destruct Hi1 as [Hm1 [[Hl1 Hu1] Hx1]].
  pose proof (bpow_pos e1) as Hp1. pose proof (bpow_pos e2) as Hp2.
  assert (Hy : x = (x / bpow e1) * bpow e1) by (field; lra).
  (* the value before the second shift *)
  assert (Hv2 : Rabs (IZR m2 * bpow e1 - x) < bpow e1).
  { rewrite Hy at 1. rewrite <- Rmult_minus_distr_r, Rabs_mult, (Rabs_right (bpow e1)) by lra.
    pose proof (Rmult_lt_compat_r (bpow e1) _ _ Hp1 Hd2). lra. }
  (* the second shift truncates *)
  assert (Hsh : IZR (shr_m mrs2) * bpow e2 <= IZR m2 * bpow e1
                < IZR (shr_m mrs2) * bpow e2 + bpow e2).
  { replace (IZR m2 * bpow e1) with ((IZR m2 * bpow e1 / bpow e2) * bpow e2) by (field; lra).
    split; [apply Rmult_le_compat_r; lra|].
    replace (IZR (shr_m mrs2) * bpow e2 + bpow e2) with ((IZR (shr_m mrs2) + 1) * bpow e2) by ring.
    apply Rmult_lt_compat_r; lra. }
  assert (Hsame : e2 = e1 -> shr_m mrs2 = m2).
  { intro Heq. rewrite Heq in Hl3, Hu3. replace (IZR m2 * bpow e1 / bpow e1) with (IZR m2) in Hl3, Hu3 by (field; lra).
    apply le_IZR in Hl3. assert (IZR m2 < IZR (shr_m mrs2 + 1)) by (rewrite plus_IZR; lra).
    apply lt_IZR in H. lia. }
  assert (Hx0 : 0 <= x).
  { assert (0 <= x / bpow e1) by (pose proof (IZR_le _ _ Hm1); lra).
    rewrite Hy. apply Rmult_le_pos; lra. }
  exists (shr_m mrs2), e2. split; [assumption|]. split; [reflexivity|]. split; [|split].
  - (* error bound *)
    destruct (Z.eq_dec e2 e1) as [Heq|Hne].
    + rewrite (Hsame Heq), Heq. pose proof (bpow_pos (-52)). pose proof (bpow_pos (-1074)).
      assert (0 <= bpow (-52) * x) by (apply Rmult_le_pos; lra). lra.
    + assert (He2' : e2 = fexp prec emax (Zdigits2 m2 + e1)) by lia.
      assert (Hb2 : bpow e2 <= bpow (-52) * (IZR m2 * bpow e1) + bpow (-1074)).
      { destruct (Z.eq_dec m2 0) as [Hz|Hz].
        - rewrite He2'. rewrite Hz in He2' |- *. simpl Zdigits2 in He2' |- *.
          rewrite fexp_eq in He2' |- *.
          replace (Z.max (0 + e1 - 53) (-1074)) with (-1074)%Z by lia.
          change (IZR 0) with 0. nra.
        - rewrite He2'. apply fexp_bound. lia. }
      assert (Hm2x : IZR m2 * bpow e1 < x + bpow e1) by (apply Rabs_def2 in Hv2; lra).
      pose proof (bpow_pos (-52)) as Hp52.
      assert (bpow (-52) <= 1) by (rewrite <- bpow_0; apply bpow_le; lia).
      assert (Habs : Rabs (IZR (shr_m mrs2) * bpow e2 - x)
                     <= Rabs (IZR (shr_m mrs2) * bpow e2 - IZR m2 * bpow e1)
                        + Rabs (IZR m2 * bpow e1 - x)).
      { replace (IZR (shr_m mrs2) * bpow e2 - x) with
          ((IZR (shr_m mrs2) * bpow e2 - IZR m2 * bpow e1) + (IZR m2 * bpow e1 - x)) by ring.
        apply Rabs_triang. }
      assert (Rabs (IZR (shr_m mrs2) * bpow e2 - IZR m2 * bpow e1) < bpow e2)
        by (apply Rabs_def1; lra).
      nra.
  - (* exact inputs that need no shift come back unchanged *)
    intros Hl HE. subst l.
    rewrite (shr_fexp_exact M E HE) in H1. injection H1 as <- <-.
    simpl in m2. subst m2. simpl in Hsame, H2, Hx1.
    rewrite (shr_fexp_exact M E HE) in H2. injection H2 as <- <-.
    simpl. rewrite Hy. f_equal. symmetry. apply Hx1. reflexivity.
  - (* rounding never crosses a power of two above the quantum *)
    intros k Hk Hxk.
    assert (Hyk : x / bpow e1 <= IZR (2 ^ (k - e1))).
    { rewrite <- bpow_IZR by lia. replace (bpow (k - e1)) with (bpow k / bpow e1).
      - unfold Rdiv. apply Rmult_le_compat_r; [left; apply Rinv_0_lt_compat; lra|assumption].
      - unfold Rdiv. rewrite <- bpow_opp, <- bpow_add. f_equal; lia. }
    pose proof (Hmono2 _ Hyk) as HK.
    apply IZR_le in HK. rewrite <- bpow_IZR in HK by lia.
    replace (bpow k) with (bpow (k - e1) * bpow e1) by (rewrite <- bpow_add; f_equal; lia).
    apply Rmult_le_compat_r with (r := bpow e1) in HK; lra.
Qed.




Lemma bpow_m50 : bpow (-50) = 4 * bpow (-52).
Proof. replace (-50)%Z with (2 + -52)%Z by lia. rewrite bpow_add, (bpow_IZR 2) by lia. change (2 ^ 2)%Z with 4%Z. ring. Qed.

Lemma bpow_m1072 : bpow (-1072) = 4 * bpow (-1074).
Proof. replace (-1072)%Z with (2 + -1074)%Z by lia. rewrite bpow_add, (bpow_IZR 2) by lia. change (2 ^ 2)%Z with 4%Z. ring. Qed.

Lemma bpow_972 : bpow 972 = 4 * bpow 970.
Proof. replace 972%Z with (2 + 970)%Z by lia. rewrite bpow_add, (bpow_IZR 2) by lia. change (2 ^ 2)%Z with 4%Z. ring. Qed.

Lemma bpow_small : bpow (-50) <= / 4.
Proof.
  replace (/ 4) with (bpow (-2)).
  - apply bpow_le. lia.
  - change (-2)%Z with (Z.opp 2). rewrite bpow_opp, (bpow_IZR 2) by lia. reflexivity.
Qed.

Lemma err_nonneg (x : R) : 0 <= x -> 0 <= err x.
Proof.
  intro. unfold err. pose proof (bpow_pos (-50)). pose proof (bpow_pos (-1072)). nra.
Qed.

Lemma bpow_le_inv (a b : Z) : bpow a <= bpow b -> (a <= b)%Z.
Proof.
  intro H. destruct (Z_le_gt_dec a b) as [|Hgt]; [assumption|].
  pose proof (bpow_lt b a ltac:(lia)). lra.
Qed.

Lemma Rabs_le_elim (x a : R) : Rabs x <= a -> - a <= x <= a.
Proof. unfold Rabs. destruct (Rcase_abs x); intro; lra. Qed.

Lemma Rabs_le_intro (x a : R) : - a <= x <= a -> Rabs x <= a.
Proof. unfold Rabs. destruct (Rcase_abs x); intro; lra. Qed.

(** Closing the rounding core for a nonnegative result. *)
Lemma round_aux_finish (M E : Z) (l : location) (x : R) :
  shr_inv (shr_record_of_loc M l) (x / bpow E) ->
  (bpow (Z.max (fexp prec emax (Zdigits2 M + E)) E) <= bpow (-52) * x + bpow (-1074)
   \/ (l = loc_Exact /\ (fexp prec emax (Zdigits2 M + E) <= E)%Z)) ->
  x < bpow 970 ->
  nnf (binary_round_aux prec emax false M E l)
  /\ Rabs (uval (binary_round_aux prec emax false M E l) - x) <= err x
  /\ ((l = loc_Exact /\ (fexp prec emax (Zdigits2 M + E) <= E)%Z) ->
      uval (binary_round_aux prec emax false M E l) = x)
  /\ (forall k, (Z.max (fexp prec emax (Zdigits2 M + E)) E <= k)%Z -> x <= bpow k ->
      uval (binary_round_aux prec emax false M E l) <= bpow k).
Proof.
  intros Hinv Hg Hx.
  destruct (binary_round_aux_spec false M E l x Hinv) as [m3 [e2 [Hm3 [Hr [Hb [Hex Hmono]]]]]].
  assert (Hx0 : 0 <= x).
  { destruct Hinv as [HM [[HL _] _]]. pose proof (bpow_pos E).
    assert (0 <= x / bpow E) by (pose proof (IZR_le _ _ HM); lra).
    replace x with (x / bpow E * bpow E) by (field; lra). apply Rmult_le_pos; lra. }
  assert (Hval : Rabs (IZR m3 * bpow e2 - x) <= err x).
  { unfold err. rewrite bpow_m50, bpow_m1072. pose proof (bpow_pos (-52)). pose proof (bpow_pos (-1074)).
    destruct Hg as [Hg|[Hl Hf]].
    - nra.
    - rewrite (Hex Hl Hf). rewrite Rminus_diag, Rabs_R0. nra. }
  assert (Hub : IZR m3 * bpow e2 < bpow 972).
  { apply Rabs_le_elim in Hval. unfold err in Hval. rewrite bpow_972.
    pose proof bpow_small. pose proof (bpow_pos 970).
    assert (bpow (-1072) <= bpow 970) by (apply bpow_le; lia). nra. }
  rewrite Hr. destruct m3 as [|m|m]; [|destruct (e2 <=? emax - prec)%Z eqn:He|lia].
  - simpl. split; [exact I|]. change (IZR 0) with 0 in Hval, Hmono, Hex. rewrite Rmult_0_l in Hval, Hmono, Hex. split; [assumption|].
    split; [intros [Hl Hf]; rewrite (Hex Hl Hf); ring|]. exact Hmono.
  - simpl. split; [exact I|]. split; [assumption|]. split; [|exact Hmono].
    intros [Hl Hf]. exact (Hex Hl Hf).
  - exfalso. apply Z.leb_gt in He. unfold emax, prec in He.
    assert (bpow 972 <= bpow e2) by (apply bpow_le; lia).
    assert (1 <= IZR (Zpos m)) by (apply IZR_le; lia). pose proof (bpow_pos e2). nra.
Qed.

(** Exact inputs, rounded from [M * 2^E]. *)
Lemma exact_choice (M E : Z) :
  (0 < M)%Z ->
  bpow (Z.max (fexp prec emax (Zdigits2 M + E)) E) <= bpow (-52) * (IZR M * bpow E) + bpow (-1074)
  \/ (loc_Exact = loc_Exact /\ (fexp prec emax (Zdigits2 M + E) <= E)%Z).
Proof.
  intro HM. destruct (Z_le_gt_dec (fexp prec emax (Zdigits2 M + E)) E) as [Hle|Hgt].
  - right. split; [reflexivity|assumption].
  - left. rewrite Z.max_l by lia. apply fexp_bound. assumption.
Qed.

Lemma exact_inv (M E : Z) :
  (0 <= M)%Z -> shr_inv (shr_record_of_loc M loc_Exact) (IZR M * bpow E / bpow E).
Proof.
  intro HM. unfold shr_inv; simpl. pose proof (bpow_pos E).
  replace (IZR M * bpow E / bpow E) with (IZR M) by (field; lra).
  split; [assumption|]. split; [lra|]. tauto.
Qed.

Lemma SFmul_nn (a b : spec_float) :
  nnf a -> nnf b -> uval a * uval b < bpow 970 ->
  nnf (SFmul prec emax a b)
  /\ Rabs (uval (SFmul prec emax a b) - uval a * uval b) <= err (uval a * uval b).
Proof.
  intros Ha Hb Hx.
  assert (Hz : Rabs (0 - 0) <= err 0) by (rewrite Rminus_diag, Rabs_R0; apply err_nonneg; lra).
  destruct a as [sa|sa| |sa ma ea]; try contradiction;
  destruct b as [sb|sb| |sb mb eb]; try contradiction;
  try destruct sa; try contradiction; try destruct sb; try contradiction;
  simpl uval in *; rewrite ?Rmult_0_l, ?Rmult_0_r; try (split; [exact I|exact Hz]).
  simpl SFmul.
  replace (IZR (Zpos ma) * bpow ea * (IZR (Zpos mb) * bpow eb))
    with (IZR (Zpos (ma * mb)) * bpow (ea + eb))
    by (rewrite Pos2Z.inj_mul, mult_IZR, bpow_add; ring).
  replace (IZR (Zpos ma) * bpow ea * (IZR (Zpos mb) * bpow eb))
    with (IZR (Zpos (ma * mb)) * bpow (ea + eb)) in Hx
    by (rewrite Pos2Z.inj_mul, mult_IZR, bpow_add; ring).
  destruct (round_aux_finish (Zpos (ma * mb)) (ea + eb) loc_Exact _
              (exact_inv (Zpos (ma * mb)) (ea + eb) ltac:(lia)) (exact_choice (Zpos (ma * mb)) (ea + eb) ltac:(lia)) Hx) as [H1 [H2 _]].
  split; assumption.
Qed.


Lemma iter_xO_val (m d : positive) : Zpos (Pos.iter xO m d) = (Zpos m * 2 ^ Zpos d)%Z.
Proof.
  induction d as [|d IH] using Pos.peano_ind.
  - change (Pos.iter xO m 1) with (xO m). rewrite Pos2Z.inj_xO. change (2 ^ Zpos 1)%Z with 2%Z. ring.
  - rewrite Pos.iter_succ, Pos2Z.inj_xO, IH, Pos2Z.inj_succ, Z.pow_succ_r by lia. ring.
Qed.

Lemma shl_align_spec (mx : positive) (ex ex' : Z) :
  snd (shl_align mx ex ex') = Z.min ex ex'
  /\ Zpos (fst (shl_align mx ex ex')) = (Zpos mx * 2 ^ (ex - snd (shl_align mx ex ex')))%Z.
Proof.
  unfold shl_align. destruct (ex' - ex)%Z as [|d|d] eqn:Hd; cbn [fst snd].
  - split; [lia|]. rewrite Z.sub_diag, Z.pow_0_r, Z.mul_1_r. reflexivity.
  - split; [lia|]. rewrite Z.sub_diag, Z.pow_0_r, Z.mul_1_r. reflexivity.
  - split; [lia|]. rewrite iter_xO_val. do 2 f_equal. lia.
Qed.

Lemma shl_align_val (mx : positive) (ex ex' : Z) :
  IZR (Zpos (fst (shl_align mx ex ex'))) * bpow (snd (shl_align mx ex ex')) = IZR (Zpos mx) * bpow ex.
Proof.
  destruct (shl_align_spec mx ex ex') as [He Hm]. rewrite Hm, mult_IZR.
  rewrite <- bpow_IZR by lia. rewrite Rmult_assoc, <- bpow_add. do 2 f_equal. lia.
Qed.

Lemma digits_unique (m d : Z) :
  (1 <= d)%Z -> (2 ^ (d - 1) <= m < 2 ^ d)%Z -> Zdigits2 m = d.
Proof.
  intros Hd [Hlo Hhi]. assert (Hm : (0 < m)%Z) by (pose proof (Z.pow_pos_nonneg 2 (d - 1)); lia).
  destruct (Zdigits2_bounds m ltac:(lia)) as [HD [HDu HDl]]. destruct (HDl Hm) as [HDlo HD1].
  destruct (Z.lt_trichotomy (Zdigits2 m) d) as [Hlt|[Heq|Hgt]]; [exfalso|assumption|exfalso].
  - pose proof (Z.pow_le_mono_r 2 (Zdigits2 m) (d - 1) ltac:(lia) ltac:(lia)). lia.
  - pose proof (Z.pow_le_mono_r 2 d (Zdigits2 m - 1) ltac:(lia) ltac:(lia)). lia.
Qed.

Lemma digits_shift (m k : Z) :
  (0 < m)%Z -> (0 <= k)%Z -> Zdigits2 (m * 2 ^ k) = (Zdigits2 m + k)%Z.
Proof.
  intros Hm Hk. destruct (Zdigits2_bounds m ltac:(lia)) as [HD [HDu HDl]].
  destruct (HDl Hm) as [HDlo HD1]. apply digits_unique; [lia|].
  replace (Zdigits2 m + k - 1)%Z with ((Zdigits2 m - 1) + k)%Z by lia.
  rewrite !Z.pow_add_r by lia. pose proof (Z.pow_pos_nonneg 2 k ltac:(lia)). nia.
Qed.

Lemma binary_round_nn (mx : positive) (ex : Z) :
  IZR (Zpos mx) * bpow ex < bpow 970 ->
  nnf (binary_round prec emax false mx ex)
  /\ Rabs (uval (binary_round prec emax false mx ex) - IZR (Zpos mx) * bpow ex)
     <= err (IZR (Zpos mx) * bpow ex)
  /\ ((fexp prec emax (Zdigits2 (Zpos mx) + ex) <= ex)%Z ->
      uval (binary_round prec emax false mx ex) = IZR (Zpos mx) * bpow ex).
Proof.
  intro Hx. unfold binary_round.
  change (Zpos (digits2_pos mx)) with (Zdigits2 (Zpos mx)).
  pose proof (shl_align_spec mx ex (fexp prec emax (Zdigits2 (Zpos mx) + ex))) as [Hez Hmz].
  pose proof (shl_align_val mx ex (fexp prec emax (Zdigits2 (Zpos mx) + ex))) as Hv.
  destruct (shl_align mx ex (fexp prec emax (Zdigits2 (Zpos mx) + ex))) as [mz ez]. cbn [fst snd] in Hez, Hmz, Hv.
  rewrite <- Hv in Hx |- *.
  destruct (Z_le_gt_dec (fexp prec emax (Zdigits2 (Zpos mx) + ex)) ex) as [Hle|Hgt].
  - assert (Hf : (fexp prec emax (Zdigits2 (Zpos mz) + ez) <= ez)%Z).
    { rewrite Hmz, digits_shift by lia. replace (Zdigits2 (Zpos mx) + (ex - ez) + ez)%Z
        with (Zdigits2 (Zpos mx) + ex)%Z by lia. lia. }
    destruct (round_aux_finish (Zpos mz) ez loc_Exact _ (exact_inv (Zpos mz) ez ltac:(lia))
                (or_intror (conj eq_refl Hf)) Hx) as [H1 [H2 [H3 _]]].
    split; [assumption|]. split; [assumption|]. intros _. apply H3. split; auto.
  - assert (Hee : ez = ex) by lia. rewrite Hee in Hmz, Hx |- *.
    rewrite Z.sub_diag, Z.pow_0_r, Z.mul_1_r in Hmz. injection Hmz as ->.
    destruct (round_aux_finish (Zpos mx) ex loc_Exact _ (exact_inv (Zpos mx) ex ltac:(lia))
                (exact_choice (Zpos mx) ex ltac:(lia)) Hx) as [H1 [H2 _]].
    split; [assumption|]. split; [assumption|]. intro; lia.
Qed.

Lemma SFadd_nn (a b : spec_float) :
  nnf a -> nnf b -> uval a + uval b < bpow 970 ->
  nnf (SFadd prec emax a b)
  /\ Rabs (uval (SFadd prec emax a b) - (uval a + uval b)) <= err (uval a + uval b).
Proof.
  intros Ha Hb Hx.
  assert (Hz : forall v, 0 <= v -> Rabs (v - v) <= err v)
    by (intros v Hv; rewrite Rminus_diag, Rabs_R0; apply err_nonneg; lra).
  assert (Hp : forall m e, 0 <= IZR (Zpos m) * bpow e)
    by (intros m e; pose proof (bpow_pos e); apply Rmult_le_pos; [apply IZR_le; lia|lra]).
  destruct a as [sa|sa| |sa ma ea]; try contradiction;
  destruct b as [sb|sb| |sb mb eb]; try contradiction;
  try destruct sa; try contradiction; try destruct sb; try contradiction;
  simpl uval in *; rewrite ?Rplus_0_l, ?Rplus_0_r;
  try (simpl; split; [exact I|apply Hz; lra]);
  try (simpl; split; [exact I|apply Hz; apply Hp]).
  unfold SFadd.
  pose proof (shl_align_val ma ea (Z.min ea eb)) as Hva.
  pose proof (shl_align_val mb eb (Z.min ea eb)) as Hvb.
  pose proof (proj1 (shl_align_spec ma ea (Z.min ea eb))) as Hea.
  pose proof (proj1 (shl_align_spec mb eb (Z.min ea eb))) as Heb.
  destruct (shl_align ma ea (Z.min ea eb)) as [pa ea']. destruct (shl_align mb eb (Z.min ea eb)) as [pb eb'].
  simpl in Hva, Hvb, Hea, Heb |- *.
  replace ea' with (Z.min ea eb) in Hva by lia. replace eb' with (Z.min ea eb) in Hvb by lia.
  change (Zpos pa + Zpos pb)%Z with (Zpos (pa + pb)).
  change (binary_normalize prec emax (Zpos (pa + pb)) (Z.min ea eb) false)
    with (binary_round prec emax false (pa + pb) (Z.min ea eb)).
  assert (Hs : IZR (Zpos (pa + pb)) * bpow (Z.min ea eb)
               = IZR (Zpos ma) * bpow ea + IZR (Zpos mb) * bpow eb)
    by (rewrite <- Hva, <- Hvb, Pos2Z.inj_add, plus_IZR; ring).
  rewrite <- Hs in Hx |- *.
  destruct (binary_round_nn (pa + pb) (Z.min ea eb) Hx) as [H1 [H2 _]]. split; assumption.
Qed.


Lemma new_location_exact (n r : Z) : new_location n r = loc_Exact <-> r = 0%Z.
Proof.
  unfold new_location, new_location_even, new_location_odd.
  destruct (Z.even n); destruct (Z.eqb_spec r 0); split; intro H; auto; try discriminate; contradiction.
Qed.

Lemma record_of_loc_flags (m : Z) (l : location) :
  orb (shr_r (shr_record_of_loc m l)) (shr_s (shr_record_of_loc m l)) = false <-> l = loc_Exact.
Proof. destruct l as [|[| |]]; simpl; split; intro; congruence. Qed.

Lemma record_of_loc_m (m : Z) (l : location) : shr_m (shr_record_of_loc m l) = m.
Proof. destruct l as [|[| |]]; reflexivity. Qed.

Lemma valid_digits (s : bool) (m : positive) (e : Z) :
  valid_binary (S754_finite s m e) = true ->
  (Zdigits2 (Zpos m) <= 53)%Z /\ (-1074 <= e <= 971)%Z
  /\ ((-1074 < e)%Z -> Zdigits2 (Zpos m) = 53%Z).
Proof.
  unfold valid_binary, bounded, canonical_mantissa. intro H.
  apply andb_prop in H as [H1 H2]. apply Z.eqb_eq in H1. apply Z.leb_le in H2.
  change (Zpos (digits2_pos m)) with (Zdigits2 (Zpos m)) in H1.
  rewrite fexp_eq in H1. unfold emax, prec in H2. lia.
Qed.

Lemma div_core_spec (m1 m2 : positive) (e1 e2 : Z) :
  let '(q, e', l) := SFdiv_core_binary prec emax (Zpos m1) e1 (Zpos m2) e2 in
  e' = Z.min (fexp prec emax (Zdigits2 (Zpos m1) + e1 - (Zdigits2 (Zpos m2) + e2))) (e1 - e2)
  /\ exists r, (0 <= r < Zpos m2)%Z /\ (Zpos m1 * 2 ^ (e1 - e2 - e') = Zpos m2 * q + r)%Z
       /\ l = new_location (Zpos m2) r.
Proof.
  unfold SFdiv_core_binary. cbv zeta.
  set (e' := Z.min (fexp prec emax (Zdigits2 (Zpos m1) + e1 - (Zdigits2 (Zpos m2) + e2))) (e1 - e2)).
  assert (Hs : (0 <= e1 - e2 - e')%Z) by (unfold e'; lia).
  assert (Hm' : (match (e1 - e2 - e')%Z with
                 | Zpos _ => Z.shiftl (Zpos m1) (e1 - e2 - e')
                 | Z0 => Zpos m1
                 | Zneg _ => 0%Z
                 end) = (Zpos m1 * 2 ^ (e1 - e2 - e'))%Z).
  { destruct (e1 - e2 - e')%Z eqn:Hd; [rewrite Z.pow_0_r; ring| |lia].
    rewrite Z.shiftl_mul_pow2 by lia. reflexivity. }
  rewrite Hm'.
  pose proof (Z_div_mod (Zpos m1 * 2 ^ (e1 - e2 - e')) (Zpos m2) ltac:(lia)) as Hdm.
  destruct (Z.div_eucl (Zpos m1 * 2 ^ (e1 - e2 - e')) (Zpos m2)) as [q r].
  split; [reflexivity|]. exists r. destruct Hdm as [Heq Hr]. split; [assumption|]. split; [lia|reflexivity].
Qed.

Lemma SFdiv_nn (a : spec_float) (mb : positive) (eb : Z) :
  nnf a -> valid_binary a = true ->
  uval a / uval (S754_finite false mb eb) < bpow 970 ->
  nnf (SFdiv prec emax a (S754_finite false mb eb))
  /\ Rabs (uval (SFdiv prec emax a (S754_finite false mb eb)) - uval a / uval (S754_finite false mb eb))
     <= err (uval a / uval (S754_finite false mb eb))
  /\ (uval a / uval (S754_finite false mb eb) <= 1 ->
      uval (SFdiv prec emax a (S754_finite false mb eb)) <= 1).
Proof.
  intros Ha Hva Hx.
  pose proof (bpow_pos eb) as Hpb. assert (Hmb : 0 < IZR (Zpos mb)) by (apply IZR_lt; lia).
  destruct a as [sa|sa| |sa ma ea]; try contradiction.
  { simpl SFdiv. simpl uval. unfold Rdiv. rewrite Rmult_0_l. split; [exact I|].
    split; [rewrite Rminus_diag, Rabs_R0; apply err_nonneg; lra|lra]. }
  destruct sa; try contradiction.
  destruct (valid_digits _ _ _ Hva) as [Hd1 _].
  set (x := uval (S754_finite false ma ea) / uval (S754_finite false mb eb)) in *.
  pose proof (div_core_spec ma mb ea eb) as Hc.
  change (SFdiv prec emax (S754_finite false ma ea) (S754_finite false mb eb))
    with (let '(mz, ez, lz) := SFdiv_core_binary prec emax (Zpos ma) ea (Zpos mb) eb in
          binary_round_aux prec emax false mz ez lz).
  destruct (SFdiv_core_binary prec emax (Zpos ma) ea (Zpos mb) eb) as [[q e'] l].
  destruct Hc as [He' [r [Hr [Hqr Hl]]]].
  set (d1 := Zdigits2 (Zpos ma)) in *. set (d2 := Zdigits2 (Zpos mb)) in *.
  assert (Hd2 : (1 <= d2)%Z).
  { destruct (Zdigits2_bounds (Zpos mb) ltac:(lia)) as [_ [_ H]]. apply H. lia. }
  assert (Hxv : x = IZR (Zpos ma) * bpow ea / (IZR (Zpos mb) * bpow eb)) by reflexivity.
  pose proof (bpow_pos e') as Hpe. pose proof (bpow_pos ea) as Hpa.
  (* the scaled quotient *)
  assert (Hy : x / bpow e' = IZR q + IZR r / IZR (Zpos mb)).
  { assert (Hq : IZR (Zpos ma) * bpow (ea - eb - e') = IZR (Zpos mb) * IZR q + IZR r).
    { rewrite (bpow_IZR (ea - eb - e')) by lia. rewrite <- mult_IZR, <- mult_IZR, <- plus_IZR. f_equal. exact Hqr. }
    rewrite Hxv. replace (IZR q + IZR r / IZR (Zpos mb))
      with ((IZR (Zpos mb) * IZR q + IZR r) / IZR (Zpos mb)) by (field; lra).
    rewrite <- Hq. replace (ea - eb - e')%Z with (ea + (- eb) + (- e'))%Z by lia.
    rewrite !bpow_add, !bpow_opp. field. repeat split; lra. }
  assert (Hq0 : (0 <= q)%Z).
  { assert (0 <= Zpos ma * 2 ^ (ea - eb - e'))%Z by (pose proof (Z.pow_pos_nonneg 2 (ea - eb - e')); lia).
    nia. }
  assert (Hrm : 0 <= IZR r / IZR (Zpos mb) < 1).
  { destruct Hr as [Hr0 Hr1]. apply IZR_le in Hr0. apply IZR_lt in Hr1. split.
    - apply Rmult_le_pos; [lra|left; apply Rinv_0_lt_compat; lra].
    - apply (Rmult_lt_reg_r (IZR (Zpos mb))); [lra|]. field_simplify; lra. }
  assert (Hinv : shr_inv (shr_record_of_loc q l) (x / bpow e')).
  { unfold shr_inv. rewrite record_of_loc_m, record_of_loc_flags, Hy, Hl, new_location_exact.
    split; [assumption|]. split; [lra|]. split; intro H.
    - subst r. unfold Rdiv. rewrite Rmult_0_l. ring.
    - assert (IZR r / IZR (Zpos mb) = 0) by lra.
      assert (IZR r = 0). { apply (Rmult_eq_reg_r (/ IZR (Zpos mb))); [|apply Rinv_neq_0_compat; lra].
        rewrite Rmult_0_l. exact H0. }
      apply eq_IZR. assumption. }
  assert (Hqx : IZR q * bpow e' <= x).
  { replace x with (x / bpow e' * bpow e') by (field; lra). rewrite Hy.
    apply Rmult_le_compat_r; lra. }
  assert (Hx0 : 0 <= x) by (pose proof (IZR_le _ _ Hq0); nra).
  (* [x] is more than [2^(d1 - 1 + ea - (d2 + eb))] *)
  assert (Hxlow : bpow (d1 + ea - (d2 + eb) - 1) < x).
  { pose proof (digits_lower (Zpos ma) ea ltac:(lia)) as Hlo.
    pose proof (digits_upper (Zpos mb) eb ltac:(lia)) as Hup.
    fold d1 in Hlo. fold d2 in Hup.
    assert (Hsplit : bpow (d1 + ea - (d2 + eb) - 1) * bpow (d2 + eb) = bpow (d1 - 1 + ea))
      by (rewrite <- bpow_add; f_equal; lia).
    assert (Hxb : x * (IZR (Zpos mb) * bpow eb) = IZR (Zpos ma) * bpow ea) by (rewrite Hxv; field; lra).
    pose proof (bpow_pos (d1 + ea - (d2 + eb) - 1)). pose proof (bpow_pos (d2 + eb)).
    assert (0 < IZR (Zpos mb) * bpow eb) by nra. nra. }
  pose proof (bpow_pos (-52)) as H52. pose proof (bpow_pos (-1074)) as H1074.
  assert (Hg : bpow (Z.max (fexp prec emax (Zdigits2 q + e')) e') <= bpow (-52) * x + bpow (-1074)).
  { destruct (Z_le_gt_dec (fexp prec emax (Zdigits2 q + e')) e') as [Hle|Hgt].
    - rewrite Z.max_r by lia. rewrite fexp_eq in He', Hle.
      destruct (Z.max_spec (d1 + ea - (d2 + eb) - 53) (-1074)) as [[_ Hm]|[_ Hm]];
        rewrite Hm in He'.
      + assert (Hm2 : e' = (-1074)%Z) by lia. rewrite Hm2.
        assert (0 <= bpow (-52) * x) by (apply Rmult_le_pos; lra). lra.
      + destruct (Z.min_spec (d1 + ea - (d2 + eb) - 53) (ea - eb)) as [[_ Hn]|[_ Hn]];
          rewrite Hn in He'; [|lia].
        rewrite He'. replace (d1 + ea - (d2 + eb) - 53)%Z with (-52 + (d1 + ea - (d2 + eb) - 1))%Z by lia.
        rewrite bpow_add. nra.
    - rewrite Z.max_l by lia. destruct (Z.eq_dec q 0) as [Hz|Hz].
      + rewrite Hz in Hgt |- *. simpl Zdigits2 in Hgt |- *. rewrite fexp_eq in Hgt |- *.
        rewrite Z.max_r by lia. nra.
      + pose proof (fexp_bound q e' ltac:(lia)). nra. }
  destruct (round_aux_finish q e' l x Hinv (or_introl Hg) Hx) as [H1 [H2 [_ H4]]].
  split; [assumption|]. split; [assumption|].
  intro Hx1. change 1 with (bpow 0). apply H4; [|assumption].
  assert (HD : (d1 + ea - (d2 + eb) - 1 < 0)%Z).
  { apply Z.nle_gt. intro HD. pose proof (bpow_le 0 _ HD). rewrite bpow_0 in H. lra. }
  apply Z.max_lub.
  - rewrite fexp_eq. destruct (Z.eq_dec q 0) as [Hz|Hz].
    + rewrite Hz. simpl Zdigits2. rewrite fexp_eq in He'. lia.
    + pose proof (digits_lower q e' ltac:(lia)).
      assert (bpow (Zdigits2 q - 1 + e') <= bpow 0) by (rewrite bpow_0; lra).
      apply bpow_le_inv in H0. lia.
  - rewrite He', fexp_eq. lia.
Qed.


Lemma nnf_pos_finite (f : spec_float) :
  nnf f -> 0 < uval f -> exists m e, f = S754_finite false m e.
Proof.
  destruct f as [s|s| |s m e]; simpl; intros H Hv; try contradiction; try lra.
  destruct s; [contradiction|]. eauto.
Qed.

Lemma nnf_zero (f : spec_float) : nnf f -> uval f = 0 -> exists s, f = S754_zero s.
Proof.
  destruct f as [s|s| |s m e]; simpl; intros H Hv; try contradiction; eauto.
  destruct s; [contradiction|]. exfalso.
  assert (0 < IZR (Zpos m)) by (apply IZR_lt; lia). pose proof (bpow_pos e). nra.
Qed.

Lemma uval_nonneg (f : spec_float) : 0 <= uval f.
Proof.
  destruct f as [s|s| |s m e]; simpl; try lra.
  pose proof (bpow_pos e). assert (0 < IZR (Zpos m)) by (apply IZR_lt; lia). nra.
Qed.

(** Comparison of two canonical positive floats decided by the exponents. *)
Lemma canonical_lt (s1 s2 : bool) (m1 m2 : positive) (e1 e2 : Z) :
  valid_binary (S754_finite s1 m1 e1) = true -> valid_binary (S754_finite s2 m2 e2) = true ->
  (e1 < e2)%Z -> IZR (Zpos m1) * bpow e1 < IZR (Zpos m2) * bpow e2.
Proof.
  intros V1 V2 He.
  destruct (valid_digits _ _ _ V1) as [D1 [R1 _]]. destruct (valid_digits _ _ _ V2) as [D2 [R2 N2]].
  specialize (N2 ltac:(lia)).
  pose proof (digits_upper (Zpos m1) e1 ltac:(lia)) as U.
  pose proof (digits_lower (Zpos m2) e2 ltac:(lia)) as L. rewrite N2 in L.
  assert (bpow (Zdigits2 (Zpos m1) + e1) <= bpow (53 - 1 + e2)) by (apply bpow_le; lia).
  lra.
Qed.

Lemma SFleb_nn (a b : spec_float) :
  nnf a -> nnf b -> valid_binary a = true -> valid_binary b = true ->
  (SFleb a b = true <-> uval a <= uval b).
Proof.
  intros Ha Hb Va Vb.
  destruct a as [sa|sa| |[|] ma ea]; try contradiction;
  destruct b as [sb|sb| |[|] mb eb]; try contradiction;
  unfold SFleb, SFcompare; simpl uval.
  - split; intro; [lra|reflexivity].
  - split; intro; [apply uval_nonneg with (f := S754_finite false mb eb)|reflexivity].
  - pose proof (uval_nonneg (S754_finite false ma ea)) as P. simpl in P.
    assert (0 < IZR (Zpos ma)) by (apply IZR_lt; lia). pose proof (bpow_pos ea).
    split; intro Hc; [discriminate|nra].
  - rewrite Pos_compare_cont_eq'.
    destruct (Z.compare_spec ea eb) as [E|L|G].
    + subst eb. pose proof (bpow_pos ea).
      destruct (Pos.compare_spec ma mb) as [E'|L'|G']; split; intro Hc; try discriminate; auto.
      * subst; lra.
      * assert (IZR (Zpos ma) < IZR (Zpos mb)) by (apply IZR_lt; lia). nra.
      * assert (IZR (Zpos mb) < IZR (Zpos ma)) by (apply IZR_lt; lia). nra.
    + pose proof (canonical_lt _ _ _ _ _ _ Va Vb L). split; intro; [lra|reflexivity].
    + pose proof (canonical_lt _ _ _ _ _ _ Vb Va G). split; intro Hc; [discriminate|lra].
Qed.

Lemma SFltb_zero_nn (b : spec_float) :
  nnf b -> (SFltb (S754_zero false) b = true <-> 0 < uval b).
Proof.
  intro Hb. destruct b as [sb|sb| |sb mb eb]; try contradiction.
  - simpl. split; intro H; [discriminate|lra].
  - destruct sb; [contradiction|]. simpl. split; intro; [|reflexivity].
    pose proof (bpow_pos eb). assert (0 < IZR (Zpos mb)) by (apply IZR_lt; lia). nra.
Qed.


(** ** Primitive floats *)

Lemma Prim2SF_zero : Prim2SF 0%float = S754_zero false.
Proof. reflexivity. Qed.

Lemma digits_lt_53 (p : positive) : (Zpos p < 2 ^ 53)%Z -> (Zdigits2 (Zpos p) <= 53)%Z.
Proof.
  intro H. destruct (Zdigits2_bounds (Zpos p) ltac:(lia)) as [_ [_ Hl]]. destruct (Hl ltac:(lia)) as [Hlo _].
  apply Z.nlt_ge. intro Hgt. pose proof (Z.pow_le_mono_r 2 53 (Zdigits2 (Zpos p) - 1) ltac:(lia) ltac:(lia)).
  lia.
Qed.

Lemma float_of_Z_spec (z : Z) :
  (0 <= z < 2 ^ 53)%Z ->
  nnf (Prim2SF (float_of_Z z)) /\ uval (Prim2SF (float_of_Z z)) = IZR z.
Proof.
  intro Hz. unfold float_of_Z.
  assert (Hv : valid_binary (binary_normalize prec emax z 0 false) = true).
  { replace z with (Uint63.to_Z (Uint63.of_Z z)) at 1.
    - rewrite <- of_uint63_spec. apply Prim2SF_valid.
    - rewrite Uint63.of_Z_spec. apply Z.mod_small. unfold Uint63.wB, Uint63.size. simpl. lia. }
  rewrite (Prim2SF_SF2Prim _ Hv).
  destruct z as [|p|p]; [split; [exact I|reflexivity]| |lia].
  change (binary_normalize prec emax (Zpos p) 0 false) with (binary_round prec emax false p 0).
  assert (Hx : IZR (Zpos p) * bpow 0 < bpow 970).
  { rewrite bpow_0, Rmult_1_r. apply Rlt_le_trans with (bpow 53).
    - apply IZR_lt_bpow; lia.
    - apply bpow_le. lia. }
  destruct (binary_round_nn p 0 Hx) as [H1 [_ H3]].
  split; [assumption|]. rewrite H3.
  - rewrite bpow_0. ring.
  - rewrite fexp_eq. pose proof (digits_lt_53 p ltac:(lia)). lia.
Qed.

Lemma mul_nn (a b : float) :
  nnf (Prim2SF a) -> nnf (Prim2SF b) -> uval (Prim2SF a) * uval (Prim2SF b) < bpow 970 ->
  nnf (Prim2SF (a * b)%float)
  /\ Rabs (uval (Prim2SF (a * b)%float) - uval (Prim2SF a) * uval (Prim2SF b))
     <= err (uval (Prim2SF a) * uval (Prim2SF b)).
Proof. rewrite mul_spec. apply SFmul_nn. Qed.

Lemma add_nn (a b : float) :
  nnf (Prim2SF a) -> nnf (Prim2SF b) -> uval (Prim2SF a) + uval (Prim2SF b) < bpow 970 ->
  nnf (Prim2SF (a + b)%float)
  /\ Rabs (uval (Prim2SF (a + b)%float) - (uval (Prim2SF a) + uval (Prim2SF b)))
     <= err (uval (Prim2SF a) + uval (Prim2SF b)).
Proof. rewrite add_spec. apply SFadd_nn. Qed.

Lemma div_nn (a b : float) :
  nnf (Prim2SF a) -> nnf (Prim2SF b) -> 0 < uval (Prim2SF b) ->
  uval (Prim2SF a) / uval (Prim2SF b) < bpow 970 ->
  nnf (Prim2SF (a / b)%float)
  /\ Rabs (uval (Prim2SF (a / b)%float) - uval (Prim2SF a) / uval (Prim2SF b))
     <= err (uval (Prim2SF a) / uval (Prim2SF b))
  /\ (uval (Prim2SF a) / uval (Prim2SF b) <= 1 -> uval (Prim2SF (a / b)%float) <= 1).
Proof.
  intros Ha Hb Hpos Hx. destruct (nnf_pos_finite _ Hb Hpos) as [mb [eb Heb]].
  rewrite div_spec. rewrite Heb in Hx |- *. apply SFdiv_nn; [assumption|apply Prim2SF_valid|assumption].
Qed.

Lemma leb_nn (a b : float) :
  nnf (Prim2SF a) -> nnf (Prim2SF b) ->
  ((a <=? b)%float = true <-> uval (Prim2SF a) <= uval (Prim2SF b)).
Proof. intros. rewrite leb_spec. apply SFleb_nn; auto; apply Prim2SF_valid. Qed.

Lemma ltb_zero_nn (b : float) :
  nnf (Prim2SF b) -> ((0 <? b)%float = true <-> 0 < uval (Prim2SF b)).
Proof. intro. rewrite ltb_spec, Prim2SF_zero. apply SFltb_zero_nn. assumption. Qed.

Lemma leb_zero_nnf (r c : float) :
  nnf (Prim2SF c) -> (0 <=? r)%float = true -> (r <=? c)%float = true -> nnf (Prim2SF r).
Proof.
  intros Hc H0 H1. rewrite leb_spec, Prim2SF_zero in H0. rewrite leb_spec in H1.
  destruct (Prim2SF r) as [s|[|]| |[|] m e]; simpl; auto; try discriminate.
  destruct (Prim2SF c) as [s'|s'| |s' m' e']; try contradiction; try discriminate.
Qed.


Lemma err_le (x : R) : 0 <= x -> err x <= x / 1000000000000000 + / 1000000000000000000.
Proof.
  intro Hx. unfold err.
  assert (H1 : bpow (-50) <= / 1000000000000000).
  { change (-50)%Z with (Z.opp 50). rewrite bpow_opp, (bpow_IZR 50) by lia.
    change (2 ^ 50)%Z with 1125899906842624%Z. apply Rinv_le_contravar; lra. }
  assert (H2 : bpow (-1072) <= / 1000000000000000000).
  { apply Rle_trans with (bpow (-60)); [apply bpow_le; lia|].
    change (-60)%Z with (Z.opp 60). rewrite bpow_opp, (bpow_IZR 60) by lia.
    change (2 ^ 60)%Z with 1152921504606846976%Z. apply Rinv_le_contravar; lra. }
  unfold Rdiv. pose proof (bpow_pos (-50)). nra.
Qed.

Lemma Prim2SF_one : Prim2SF 1%float = S754_finite false 4503599627370496 (-52).
Proof. reflexivity. Qed.

Lemma Prim2SF_1000 : Prim2SF 1000%float = S754_finite false 8796093022208000 (-43).
Proof. reflexivity. Qed.

Lemma uval_one : uval (Prim2SF 1%float) = 1.
Proof.
  change (Prim2SF 1%float) with (S754_finite false 4503599627370496 (-52)).
  cbn [uval]. change (Zpos 4503599627370496) with (2 ^ 52)%Z.
  rewrite <- bpow_IZR by lia. rewrite <- bpow_add. reflexivity.
Qed.

Lemma uval_1000 : uval (Prim2SF 1000%float) = 1000.
Proof.
  change (Prim2SF 1000%float) with (S754_finite false 8796093022208000 (-43)).
  cbn [uval]. change (Zpos 8796093022208000) with (1000 * 2 ^ 43)%Z.
  rewrite mult_IZR, <- bpow_IZR by lia. rewrite Rmult_assoc, <- bpow_add. simpl. ring.
Qed.

Lemma round_half_even_bounds (num den K : Z) :
  (0 < den)%Z -> (0 <= K)%Z -> (0 <= num <= K * den)%Z -> (0 <= round_half_even num den <= K)%Z.
Proof.
  intros Hd HK Hn. unfold round_half_even.
  pose proof (Z.div_mod num den ltac:(lia)) as Hdm. pose proof (Z.mod_pos_bound num den Hd) as Hr.
  assert (Hq0 : (0 <= num / den)%Z) by (apply Z.div_pos; lia).
  assert (HqK : (num / den <= K)%Z) by (apply Z.div_le_upper_bound; lia).
  assert (Hlast : (num / den = K)%Z -> (num mod den = 0)%Z) by (intro; nia).
  destruct (Z.compare_spec (2 * (num mod den)) den) as [E|L|G].
  - destruct (Z.even (num / den)); [lia|].
    destruct (Z.eq_dec (num / den) K) as [HE|HE]; [specialize (Hlast HE); lia|lia].
  - lia.
  - destruct (Z.eq_dec (num / den) K) as [HE|HE]; [specialize (Hlast HE); lia|lia].
Qed.

(** [round(r, 3)] of a score in [[0, 1]] is again in [[0, 1]], and when it is
    not zero it is at least [0.0009]. *)
Lemma round3_unit (r : float) :
  (0 <=? r)%float = true -> (r <=? 1)%float = true ->
  nnf (Prim2SF (round3 r)) /\ uval (Prim2SF (round3 r)) <= 1
  /\ (uval (Prim2SF (round3 r)) = 0 \/ 9 / 10000 <= uval (Prim2SF (round3 r))).
Proof.
  intros H0 H1.
  assert (Hone : nnf (Prim2SF 1%float)) by (change (Prim2SF 1%float) with (S754_finite false 4503599627370496 (-52)); exact I).
  pose proof (leb_zero_nnf r 1 Hone H0 H1) as Hn.
  pose proof (proj1 (leb_nn r 1 Hn Hone) H1) as Hle. rewrite uval_one in Hle.
  unfold round3. destruct (Prim2SF r) as [s|s| |[|] m e] eqn:Hr; try contradiction.
  - rewrite Hr. simpl. split; [exact I|]. split; [lra|left; reflexivity].
  - simpl in Hle. pose proof (bpow_pos e) as Hpe.
    assert (Hm1 : 1 <= IZR (Zpos m)) by (apply IZR_le; lia).
    destruct (0 <=? e)%Z eqn:He.
    + rewrite Hr. simpl uval. split; [exact I|]. split; [assumption|right].
      apply Z.leb_le in He. pose proof (bpow_le 0 e He). rewrite bpow_0 in H. nra.
    + apply Z.leb_gt in He.
      assert (Hmle : (Zpos m <= 2 ^ (- e))%Z).
      { apply le_IZR. rewrite <- bpow_IZR by lia. rewrite bpow_opp.
        apply (Rmult_le_reg_r (bpow e)); [assumption|]. rewrite Rinv_l by lra. assumption. }
      pose proof (round_half_even_bounds (Zpos m * 1000) (2 ^ (- e)) 1000
                    ltac:(apply Z.pow_pos_nonneg; lia) ltac:(lia) ltac:(lia)) as Hk.
      set (k := round_half_even (Zpos m * 1000) (2 ^ (- e))) in *.
      assert (H1000 : nnf (Prim2SF 1000%float)) by (change (Prim2SF 1000%float) with (S754_finite false 8796093022208000 (-43)); exact I).
      destruct (Z.eq_dec k 0) as [Hk0|Hk0].
      * rewrite Hk0. rewrite div_spec.
        change (Prim2SF 1000%float) with (S754_finite false 8796093022208000 (-43)).
        change (Prim2SF (float_of_Z 0)) with (S754_zero false). simpl.
        split; [exact I|]. split; [lra|left; reflexivity].
      * destruct (float_of_Z_spec k ltac:(lia)) as [Hkn Hkv].
        assert (Hx : uval (Prim2SF (float_of_Z k)) / uval (Prim2SF 1000%float) < bpow 970).
        { rewrite Hkv, uval_1000. apply Rle_lt_trans with 1.
          - assert (Hk' : IZR k <= 1000) by (apply IZR_le; lia). unfold Rdiv. apply (Rmult_le_reg_r 1000); [lra|].
            rewrite Rmult_assoc, Rinv_l by lra. lra.
          - rewrite <- bpow_0. apply bpow_lt. lia. }
        destruct (div_nn (float_of_Z k) 1000 Hkn H1000 ltac:(rewrite uval_1000; lra) Hx)
          as [Dn [Db Dm]].
        rewrite Hkv, uval_1000 in Db, Dm.
        assert (Hkr : 1 <= IZR k <= 1000) by (split; apply IZR_le; lia).
        split; [assumption|]. split.
        -- apply Dm. unfold Rdiv. apply (Rmult_le_reg_r 1000); [lra|].
           rewrite Rmult_assoc, Rinv_l by lra. lra.
        -- right. apply Rabs_le_elim in Db.
           assert (0 <= IZR k / 1000) by (unfold Rdiv; apply Rmult_le_pos; lra).
           pose proof (err_le _ H). unfold Rdiv in *. lra.
Qed.

End FloatRound.

(* ------------------------------------------------------------------ *)
(** ** CVService.extract_all_features: circularity and edge density *)

Module CVFeatures.
Import Py CV FloatModel FloatRound.
Local Open Scope R_scope.

Lemma uval_pow2_52 (e : Z) : uval (S754_finite false 4503599627370496 e) = bpow (e + 52).
Proof.
  cbn [uval]. change (Zpos 4503599627370496) with (2 ^ 52)%Z.
  rewrite <- bpow_IZR by lia. rewrite <- bpow_add. f_equal. lia.
Qed.

(** A perimeter in [[2^-149, 2^200]] is a nonnegative finite float. *)
Lemma perimeter_bounds (p : float) :
  ((0x1p-149 <=? p)%float && (p <=? 0x1p200)%float) = true ->
  nnf (Prim2SF p) /\ bpow (-149) <= uval (Prim2SF p) <= bpow 200.
Proof.
  intro H. apply andb_prop in H. destruct H as [Hlo Hhi].
  assert (Cl : Prim2SF 0x1p-149%float = S754_finite false 4503599627370496 (-201)) by reflexivity.
  assert (Ch : Prim2SF 0x1p200%float = S754_finite false 4503599627370496 148) by reflexivity.
  assert (Hn : nnf (Prim2SF p)).
  { pose proof Hlo as Hlo'. pose proof Hhi as Hhi'.
    rewrite leb_spec, Cl in Hlo'. rewrite leb_spec, Ch in Hhi'.
    destruct (Prim2SF p) as [s|[|]| |[|] m e]; try exact I;
      vm_compute in Hlo'; vm_compute in Hhi'; discriminate. }
  assert (Nl : nnf (Prim2SF 0x1p-149%float)) by (rewrite Cl; exact I).
  assert (Nh : nnf (Prim2SF 0x1p200%float)) by (rewrite Ch; exact I).
  apply (leb_nn _ _ Nl Hn) in Hlo. apply (leb_nn _ _ Hn Nh) in Hhi.
  rewrite Cl, uval_pow2_52 in Hlo. rewrite Ch, uval_pow2_52 in Hhi.
  split; [assumption|split; assumption].
Qed.

(** A nonnegative float within [err] of the square of such a perimeter is
    finite and positive. *)
Lemma square_positive (p : float) (r : spec_float) :
  ((0x1p-149 <=? p)%float && (p <=? 0x1p200)%float) = true ->
  nnf r ->
  Rabs (uval r - uval (Prim2SF p) * uval (Prim2SF p)) <= err (uval (Prim2SF p) * uval (Prim2SF p)) ->
  exists m e, r = S754_finite false m e.
Proof.
  intros H Hn2 Herr. destruct (perimeter_bounds p H) as [Hn [Hlo Hhi]].
  set (u := uval (Prim2SF p)) in *.
  pose proof (bpow_pos (-149)) as P149.
  apply nnf_pos_finite; [exact Hn2|].
  apply Rabs_le_elim in Herr. unfold err in Herr.
  assert (Hsq : bpow (-149) * bpow (-149) <= u * u) by (apply Rmult_le_compat; lra).
  rewrite <- bpow_add in Hsq.
  replace (-149 + -149)%Z with (2 + -300)%Z in Hsq by lia.
  rewrite bpow_add, (bpow_IZR 2) in Hsq by lia. change (2 ^ 2)%Z with 4%Z in Hsq.
  assert (H50 : bpow (-50) <= / 2).
  { rewrite <- bpow_1, <- bpow_opp. apply bpow_le. lia. }
  assert (H1072 : bpow (-1072) <= bpow (-300)) by (apply bpow_le; lia).
  pose proof (bpow_pos (-300)). pose proof (bpow_pos (-50)).
  assert (bpow (-50) * (u * u) <= / 2 * (u * u)) by (apply Rmult_le_compat_r; lra).
  lra.
Qed.

(** The correctly rounded square [x * x] is such a [pow] on the perimeter
    range. *)
Lemma correctly_rounded_pow2_accurate (x : float) :
  ((0x1p-149 <=? x)%float && (x <=? 0x1p200)%float) = true ->
  pow2_accurate (fun y => ((y * y)%float, false)) x.
Proof.
  intro H. destruct (perimeter_bounds x H) as [Hn [Hlo Hhi]].
  unfold pow2_accurate. cbn [fst snd]. split; [reflexivity|].
  pose proof (bpow_pos (-149)).
  assert (Hu2 : uval (Prim2SF x) * uval (Prim2SF x) < bpow 970).
  { apply Rle_lt_trans with (bpow 200 * bpow 200).
    - apply Rmult_le_compat; lra.
    - rewrite <- bpow_add. apply bpow_lt. lia. }
  exact (mul_nn x x Hn Hn Hu2).
Qed.

Lemma finite_not_infinity (x : float) (m : positive) (e : Z) :
  Prim2SF x = S754_finite false m e -> is_infinity x = false.
Proof.
  intro H. unfold is_infinity. rewrite eqb_spec, abs_spec, H.
  change (Prim2SF infinity) with (S754_infinity false). reflexivity.
Qed.

Lemma finite_not_zero (x : float) (m : positive) (e : Z) :
  Prim2SF x = S754_finite false m e -> (x =? 0)%float = false.
Proof. intro H. rewrite eqb_spec, H, Prim2SF_zero. reflexivity. Qed.

Lemma finite_positive (x : float) (m : positive) (e : Z) :
  Prim2SF x = S754_finite false m e -> (0 <? x)%float = true.
Proof. intro H. rewrite ltb_spec, H, Prim2SF_zero. reflexivity. Qed.

Lemma finite_is_finite (x : float) (m : positive) (e : Z) :
  Prim2SF x = S754_finite false m e -> is_finite x = true.
Proof.
  intro H. unfold is_finite, is_nan. rewrite (finite_not_infinity x m e H).
  rewrite eqb_spec, H. unfold SFeqb, SFcompare. cbn [negb].
  rewrite Z.compare_refl, Pos_compare_cont_eq', Pos.compare_refl. reflexivity.
Qed.

Lemma uval_abs (x : float) : uval (Prim2SF (abs x)) = uval (Prim2SF x).
Proof. rewrite abs_spec. destruct (Prim2SF x); reflexivity. Qed.

(** [perimeter ** 2] of a perimeter in range, with an accurate [pow]:
    no exception, and a positive float within [err] of the square. *)
Lemma py_pow2_in_range (libm_pow : float -> float * bool) (p : float) :
  ((0x1p-149 <=? p)%float && (p <=? 0x1p200)%float) = true ->
  pow2_accurate libm_pow (abs p) ->
  exists p2, py_pow2 libm_pow p = Some p2
    /\ (exists m e, Prim2SF p2 = S754_finite false m e)
    /\ Rabs (uval (Prim2SF p2) - uval (Prim2SF p) * uval (Prim2SF p))
       <= err (uval (Prim2SF p) * uval (Prim2SF p)).
Proof.
  intros Hr Hacc. destruct (perimeter_bounds p Hr) as [Hn [Hlo Hhi]].
  assert (Hp : exists m e, Prim2SF p = S754_finite false m e).
  { apply nnf_pos_finite; [exact Hn|]. pose proof (bpow_pos (-149)). lra. }
  destruct Hp as [mp [ep Hp]].
  unfold py_pow2. rewrite (finite_is_finite _ _ _ Hp), (finite_not_zero _ _ _ Hp). cbn [andb negb].
  destruct (abs p =? 1)%float; cbn [negb].
  - exists (p * p)%float. split; [reflexivity|].
    destruct (correctly_rounded_pow2_accurate p Hr) as [_ [Hn2 Herr]]. cbn [fst] in Hn2, Herr.
    split; [exact (square_positive p _ Hr Hn2 Herr)|exact Herr].
  - destruct Hacc as [Her [Hn2 Herr]]. rewrite uval_abs in Herr.
    destruct (libm_pow (abs p)) as [r er]. cbn [fst snd] in Her, Hn2, Herr. subst er.
    destruct (square_positive p _ Hr Hn2 Herr) as [m [e Hsq]].
    rewrite (finite_not_infinity _ _ _ Hsq). exists r.
    split; [reflexivity|]. split; [exists m, e; exact Hsq|exact Herr].
Qed.

Lemma fold_add_bounds (l : list Z) (acc : Z) :
  Forall (fun px => 0 <= px <= 255)%Z l ->
  (acc <= fold_left Z.add l acc <= acc + 255 * Z.of_nat (List.length l))%Z.
Proof.
  revert acc. induction l as [|a l IH]; intros acc Hl; cbn [fold_left List.length].
  - lia.
  - inversion Hl as [|? ? Ha Hl']; subst. specialize (IH (acc + a)%Z Hl'). lia.
Qed.

(** The edge density of a uint8 edge map is [0] or a float in [[0, 1]]. *)
Lemma edge_density_unit (edges : list Z) :
  Forall (fun px => 0 <= px <= 255)%Z edges ->
  (255 * Z.of_nat (List.length edges) < 2 ^ 53)%Z ->
  edge_density edges = VInt 0 \/
  exists d, edge_density edges = VFloat d /\ (0 <=? d)%float = true /\ (d <=? 1)%float = true.
Proof.
  intros Hpx Hlen. unfold edge_density.
  destruct (Z.of_nat (List.length edges) >? 0)%Z eqn:Hs; [right|left; reflexivity].
  apply Z.gtb_lt in Hs.
  pose proof (fold_add_bounds edges 0 Hpx) as Hsum.
  set (sm := fold_left Z.add edges 0%Z) in *. set (n := Z.of_nat (List.length edges)) in *.
  destruct (float_of_Z_spec sm ltac:(lia)) as [Hsn Hsv].
  destruct (float_of_Z_spec (255 * n) ltac:(lia)) as [Hdn Hdv].
  assert (Hpos : 0 < IZR (255 * n)) by (apply IZR_lt; lia).
  assert (Hsle : IZR sm <= IZR (255 * n)) by (apply IZR_le; lia).
  assert (Hle1 : IZR sm / IZR (255 * n) <= 1).
  { unfold Rdiv. apply (Rmult_le_reg_r (IZR (255 * n))); [lra|].
    rewrite Rmult_assoc, Rinv_l by lra. lra. }
  assert (H970 : IZR sm / IZR (255 * n) < bpow 970).
  { apply Rle_lt_trans with 1; [exact Hle1|]. rewrite <- bpow_0. apply bpow_lt. lia. }
  destruct (div_nn (float_of_Z sm) (float_of_Z (255 * n)) Hsn Hdn
              ltac:(rewrite Hdv; lra) ltac:(rewrite Hsv, Hdv; exact H970)) as [Dn [_ Dm]].
  rewrite Hsv, Hdv in Dm. specialize (Dm Hle1).
  eexists; split; [reflexivity|]. split.
  - apply leb_nn; [rewrite Prim2SF_zero; exact I | exact Dn |].
    rewrite Prim2SF_zero. cbn [uval]. apply uval_nonneg.
  - apply leb_nn; [exact Dn | change (Prim2SF 1%float) with (S754_finite false 4503599627370496 (-52)); exact I |].
    rewrite uval_one. exact Dm.
Qed.

(** C8 (confirmed).  For a contour whose positive perimeter lies in the
    range [cv2.arcLength] can return (between the least positive float32
    step and [2^200]), with a C library [pow] accurate there, and a crop on
    which OpenCV computes a uint8 edge map, [extract_all_features] returns a
    dictionary whose [circularity] is [4 * pi * area / perimeter ** 2] when
    [perimeter > 0], the divisor [perimeter ** 2] being then a positive float
    within one rounding of the exact square, so no division by zero is
    performed; it is the int [0] otherwise; and the computed [edge_density]
    is [0] or a float in [[0, 1]]. *)
Theorem extract_all_features_well_defined
    (image contour : Type) (contourArea arcLength : contour -> float)
    (libm_pow : float -> float * bool)
    (canny_edges : image -> option (list Z)) (img : image) (c : contour) (edges : list Z) :
  ((0 <? arcLength c)%float = true ->
     ((0x1p-149 <=? arcLength c)%float && (arcLength c <=? 0x1p200)%float) = true
     /\ pow2_accurate libm_pow (abs (arcLength c))) ->
  canny_edges img = Some edges ->
  Forall (fun px => 0 <= px <= 255)%Z edges ->
  (255 * Z.of_nat (List.length edges) < 2 ^ 53)%Z ->
  (exists feats,
     extract_all_features image contour contourArea arcLength libm_pow canny_edges img c
       = Some feats
     /\ ((0 <? arcLength c)%float = true ->
          exists p2, py_pow2 libm_pow (arcLength c) = Some p2
            /\ (0 <? p2)%float = true
            /\ Rabs (uval (Prim2SF p2) - uval (Prim2SF (arcLength c)) * uval (Prim2SF (arcLength c)))
               <= err (uval (Prim2SF (arcLength c)) * uval (Prim2SF (arcLength c)))
            /\ get feats "circularity"%string
               = Some (VFloat (4 * np_pi * contourArea c / p2)%float))
     /\ ((0 <? arcLength c)%float = false ->
          get feats "circularity"%string = Some (VInt 0))) /\
  (edge_density edges = VInt 0 \/
   exists d, edge_density edges = VFloat d
             /\ (0 <=? d)%float = true /\ (d <=? 1)%float = true).
Proof.
  intros Hrange Hcanny Hpx Hlen. split; [|exact (edge_density_unit _ Hpx Hlen)].
  unfold extract_all_features. rewrite Hcanny.
  destruct (0 <? arcLength c)%float eqn:Hpos.
  - destruct (Hrange eq_refl) as [Hr Hacc].
    destruct (py_pow2_in_range libm_pow _ Hr Hacc) as [p2 [Hp2 [[m [e Hsq]] Herr]]].
    assert (Hc : circularity_of libm_pow (contourArea c) (arcLength c)
                 = Some (VFloat (4 * np_pi * contourArea c / p2)%float)).
    { unfold circularity_of. rewrite Hpos, Hp2. unfold py_div.
      rewrite (finite_not_zero _ _ _ Hsq). reflexivity. }
    rewrite Hc. eexists; split; [reflexivity|]. split; [|intro; discriminate].
    intros _. exists p2. split; [exact Hp2|]. split; [exact (finite_positive _ _ _ Hsq)|].
    split; [exact Herr|reflexivity].
  - assert (Hc : circularity_of libm_pow (contourArea c) (arcLength c) = Some (VInt 0))
      by (unfold circularity_of; rewrite Hpos; reflexivity).
    rewrite Hc. eexists; split; [reflexivity|]. split; [intro; discriminate|].
    intros _. reflexivity.
Qed.

Lemma extract_all_features_well_defined_witness :
  let arc := fun x : float => x in
  let area := fun x : float => (x * x / 12.566370614359172)%float in
  let pw := fun y : float => ((y * y)%float, false) in
  let edges := fun img : list Z => Some img in
  ((0 <? arc 10%float)%float = true ->
     ((0x1p-149 <=? arc 10%float)%float && (arc 10%float <=? 0x1p200)%float) = true
     /\ pow2_accurate pw (abs (arc 10%float))) /\
  edges [0; 255; 255; 0]%Z = Some [0; 255; 255; 0]%Z /\
  Forall (fun px => 0 <= px <= 255)%Z [0; 255; 255; 0]%Z /\
  (255 * Z.of_nat (List.length [0; 255; 255; 0]%Z) < 2 ^ 53)%Z /\
  ((exists feats,
     extract_all_features (list Z) float area arc pw edges [0; 255; 255; 0]%Z 10%float
       = Some feats
     /\ ((0 <? arc 10%float)%float = true ->
          exists p2, py_pow2 pw (arc 10%float) = Some p2
            /\ (0 <? p2)%float = true
            /\ Rabs (uval (Prim2SF p2) - uval (Prim2SF (arc 10%float)) * uval (Prim2SF (arc 10%float)))
               <= err (uval (Prim2SF (arc 10%float)) * uval (Prim2SF (arc 10%float)))
            /\ get feats "circularity"%string
               = Some (VFloat (4 * np_pi * area 10%float / p2)%float))
     /\ ((0 <? arc 10%float)%float = false ->
          get feats "circularity"%string = Some (VInt 0))) /\
   (edge_density [0; 255; 255; 0]%Z = VInt 0 \/
    exists d, edge_density [0; 255; 255; 0]%Z = VFloat d
              /\ (0 <=? d)%float = true /\ (d <=? 1)%float = true)).
Proof.
  intros arc area pw edges.
  assert (H1 : (0 <? arc 10%float)%float = true ->
     ((0x1p-149 <=? arc 10%float)%float && (arc 10%float <=? 0x1p200)%float) = true
     /\ pow2_accurate pw (abs (arc 10%float))).
  { intros _. split; [vm_compute; reflexivity|].
    apply correctly_rounded_pow2_accurate. vm_compute. reflexivity. }
  assert (H2 : edges [0; 255; 255; 0]%Z = Some [0; 255; 255; 0]%Z) by reflexivity.
  assert (H3 : Forall (fun px => 0 <= px <= 255)%Z [0; 255; 255; 0]%Z)
    by (repeat constructor; lia).
  assert (H4 : (255 * Z.of_nat (List.length [0; 255; 255; 0]%Z) < 2 ^ 53)%Z)
    by (vm_compute; reflexivity).
  split; [exact H1|]. split; [exact H2|]. split; [exact H3|]. split; [exact H4|].
  exact (extract_all_features_well_defined (list Z) float area arc pw edges
           [0; 255; 255; 0]%Z 10%float [0; 255; 255; 0]%Z H1 H2 H3 H4).
Defined.

End CVFeatures.

(* ------------------------------------------------------------------ *)
(** ** MLPredictorService.predict_color_percentages: renormalisation *)

Module ColorScores.
Import Py QualityModels ML FloatModel FloatRound.
Local Open Scope R_scope.

Lemma sf_val_nnf (f : spec_float) : nnf f -> sf_val f = uval f.
Proof. destruct f as [s|s| |[|] m e]; cbn [nnf sf_val uval]; intro H; try contradiction; lra. Qed.

Lemma uval_100 : nnf (Prim2SF 100%float) /\ uval (Prim2SF 100%float) = 100.
Proof.
  change (Prim2SF 100%float) with (S754_finite false 7036874417766400 (-46)).
  split; [exact I|]. cbn [uval]. change (Zpos 7036874417766400) with (100 * 2 ^ 46)%Z.
  rewrite mult_IZR, <- bpow_IZR by lia. rewrite Rmult_assoc, <- bpow_add.
  change (46 + -46)%Z with 0%Z. rewrite bpow_0. ring.
Qed.

Lemma bpow_970_big : 1000000 < bpow 970.
Proof.
  apply Rlt_le_trans with (bpow 20).
  - rewrite (bpow_IZR 20) by lia. change (2 ^ 20)%Z with 1048576%Z. lra.
  - apply bpow_le. lia.
Qed.

Lemma fill_cnn (r1 r2 r3 r4 : float) :
  fill_predictions [r1; r2; r3; r4] CNN_COLOR_CLASSES 0 [] =
  Some [("Dark", round3 r1); ("Green", round3 r2); ("Light", round3 r3); ("Medium", round3 r4)]%string.
Proof. reflexivity. Qed.

(** One addition of the running [sum]: the error grows by at most [1e-14]. *)
Lemma sum_step (s q : float) (Sv e : R) :
  nnf (Prim2SF s) -> Rabs (uval (Prim2SF s) - Sv) <= e -> 0 <= Sv <= 4 ->
  0 <= e <= / 10000000000000 ->
  nnf (Prim2SF q) -> uval (Prim2SF q) <= 1 ->
  nnf (Prim2SF (s + q)%float)
  /\ Rabs (uval (Prim2SF (s + q)%float) - (Sv + uval (Prim2SF q))) <= e + / 100000000000000.
Proof.
  intros Hs He HS He' Hq Hq1.
  pose proof (uval_nonneg (Prim2SF q)). pose proof (uval_nonneg (Prim2SF s)).
  apply Rabs_le_elim in He.
  pose proof bpow_970_big.
  destruct (add_nn s q Hs Hq ltac:(lra)) as [Hn Herr].
  split; [exact Hn|].
  pose proof (err_le (uval (Prim2SF s) + uval (Prim2SF q)) ltac:(lra)).
  apply Rabs_le_elim in Herr. apply Rabs_le_intro. lra.
Qed.

(** One renormalised entry [(v / total_prob) * 100]. *)
Lemma norm_step (q t : float) :
  nnf (Prim2SF q) -> uval (Prim2SF q) <= 1 ->
  nnf (Prim2SF t) -> / 1250 <= uval (Prim2SF t) ->
  nnf (Prim2SF (q / t * 100)%float)
  /\ Rabs (uval (Prim2SF (q / t * 100)%float) - 100 * (uval (Prim2SF q) / uval (Prim2SF t)))
     <= / 1000000000.
Proof.
  intros Hq Hq1 Ht Ht1.
  set (uq := uval (Prim2SF q)) in *. set (ut := uval (Prim2SF t)) in *.
  pose proof (uval_nonneg (Prim2SF q)). fold uq in H.
  assert (Hut : 0 < ut) by lra.
  assert (Hinv : 0 < / ut <= 1250).
  { split; [apply Rinv_0_lt_compat; lra|].
    rewrite <- (Rinv_inv 1250). apply Rinv_le_contravar; lra. }
  assert (Hx : 0 <= uq / ut <= 1250) by (unfold Rdiv; split; nra).
  pose proof bpow_970_big.
  destruct (div_nn q t Hq Ht Hut ltac:(fold uq ut; lra)) as [Dn [De _]].
  fold uq ut in De. pose proof (err_le (uq / ut) ltac:(lra)).
  apply Rabs_le_elim in De.
  set (d := uval (Prim2SF (q / t)%float)) in *.
  destruct uval_100 as [N100 U100].
  assert (Hd : d * 100 < bpow 970) by lra.
  destruct (mul_nn (q / t) 100 Dn N100 ltac:(fold d; rewrite U100; exact Hd)) as [Mn Me].
  fold d in Me. rewrite U100 in Me.
  pose proof (uval_nonneg (Prim2SF (q / t)%float)). fold d in H2.
  pose proof (err_le (d * 100) ltac:(lra)).
  apply Rabs_le_elim in Me.
  split; [exact Mn|]. apply Rabs_le_intro. lra.
Qed.

(** The real-number core of the renormalisation bound. *)
Lemma renormalised_sum_bound (u1 u2 u3 u4 t w1 w2 w3 w4 : R) :
  / 1250 <= t -> Rabs (t - (u1 + u2 + u3 + u4)) <= / 10000000000000 ->
  Rabs (w1 - 100 * (u1 / t)) <= / 1000000000 -> Rabs (w2 - 100 * (u2 / t)) <= / 1000000000 ->
  Rabs (w3 - 100 * (u3 / t)) <= / 1000000000 -> Rabs (w4 - 100 * (u4 / t)) <= / 1000000000 ->
  Rabs (w1 + (w2 + (w3 + (w4 + 0))) - 100) <= / 1000000.
Proof.
  intros Ht HT H1 H2 H3 H4.
  apply Rabs_le_elim in HT, H1, H2, H3, H4.
  assert (Hinv : 0 < / t <= 1250).
  { split; [apply Rinv_0_lt_compat; lra|].
    rewrite <- (Rinv_inv 1250). apply Rinv_le_contravar; lra. }
  assert (Hti : t * / t = 1) by (apply Rinv_r; lra).
  unfold Rdiv in *. set (it := / t) in *.
  assert (E : 100 * (u1 * it) + 100 * (u2 * it) + 100 * (u3 * it) + 100 * (u4 * it) - 100
              = 100 * (it * ((u1 + u2 + u3 + u4) - t))) by nra.
  assert (B : Rabs (it * ((u1 + u2 + u3 + u4) - t)) <= 1250 * / 10000000000000).
  { rewrite Rabs_mult, (Rabs_pos_eq it) by lra.
    apply Rmult_le_compat; [lra|apply Rabs_pos|lra|]. apply Rabs_le_intro. lra. }
  apply Rabs_le_elim in B. apply Rabs_le_intro. lra.
Qed.

Lemma add_zeros (a b : float) (sa sb : bool) :
  Prim2SF a = S754_zero sa -> Prim2SF b = S754_zero sb ->
  exists s, Prim2SF (a + b)%float = S754_zero s.
Proof. intros Ha Hb. rewrite add_spec, Ha, Hb. destruct sa, sb; eexists; reflexivity. Qed.

Lemma round3_zero (r : float) :
  (0 <=? r)%float = true -> (r <=? 1)%float = true -> (0 <? round3 r)%float = false ->
  exists s, Prim2SF (round3 r) = S754_zero s.
Proof.
  intros H0 H1 Hz. destruct (round3_unit r H0 H1) as [Hn [_ _]].
  apply nnf_zero; [exact Hn|].
  pose proof (uval_nonneg (Prim2SF (round3 r))).
  destruct (Rle_lt_or_eq_dec _ _ H) as [Hp|Hp]; [|auto].
  apply (ltb_zero_nn _ Hn) in Hp. congruence.
Qed.

(** C4 (counterexample).  A nonzero raw score below [0.0005] rounds to
    [0.0]; when it is the only nonzero score the rounded total is [0], the
    renormalisation is skipped and every percentage is [0], so the values
    sum to [0], not to [100]. *)
Lemma predict_small_score_counterexample :
  (0.0004 =? 0)%float = false /\
  predict_color_percentages unit unit (fun _ _ => Some [0.0004; 0; 0; 0]%float) (Some tt)
    CNN_COLOR_CLASSES tt
  = Some [("Dark", 0); ("Green", 0); ("Light", 0); ("Medium", 0)]%float%string.
Proof. split; vm_compute; reflexivity. Qed.

(** C4 (amended).  For a run of the classifier whose four raw class scores
    lie in [[0, 1]]: the result maps the color classes, in order; when at
    least one score is nonzero after [round(., 3)], the percentage values
    sum to [100] within [1e-6]; when every rounded score is zero, no
    renormalisation happens and the values are the rounded scores, all
    zero. *)
Theorem predict_color_percentages_sum (image model : Type)
    (run_model : model -> image -> option (list float)) (m : model) (img : image)
    (raw : list float) :
  run_model m img = Some raw ->
  List.length raw = 4%nat ->
  Forall (fun r => (0 <=? r)%float = true /\ (r <=? 1)%float = true) raw ->
  exists preds,
    predict_color_percentages image model run_model (Some m) CNN_COLOR_CLASSES img = Some preds
    /\ map fst preds = CNN_COLOR_CLASSES
    /\ (Exists (fun r => (0 <? round3 r)%float = true) raw ->
          Rabs (fold_right Rplus 0 (map (fun kv => sf_val (Prim2SF (snd kv))) preds) - 100)
          <= / 1000000)
    /\ (Forall (fun r => (0 <? round3 r)%float = false) raw ->
          map snd preds = map round3 raw
          /\ Forall (fun kv => (snd kv =? 0)%float = true) preds).
Proof.
  intros Hrun Hlen Hraw.
  destruct raw as [|r1 [|r2 [|r3 [|r4 [|]]]]]; try discriminate.
  inversion Hraw as [|? ? [A1 B1] Hraw1]; subst.
  inversion Hraw1 as [|? ? [A2 B2] Hraw2]; subst.
  inversion Hraw2 as [|? ? [A3 B3] Hraw3]; subst.
  inversion Hraw3 as [|? ? [A4 B4] _]; subst.
  unfold predict_color_percentages. rewrite Hrun, fill_cnn.
  eexists; split; [reflexivity|]. split.
  { unfold normalize_to_100. destruct (0 <? _)%float; reflexivity. }
  destruct (round3_unit r1 A1 B1) as [N1 [L1 D1]].
  destruct (round3_unit r2 A2 B2) as [N2 [L2 D2]].
  destruct (round3_unit r3 A3 B3) as [N3 [L3 D3]].
  destruct (round3_unit r4 A4 B4) as [N4 [L4 D4]].
  split.
  - intro Hex.
    set (q1 := round3 r1) in *. set (q2 := round3 r2) in *.
    set (q3 := round3 r3) in *. set (q4 := round3 r4) in *.
    assert (HU : 9 / 10000 <= uval (Prim2SF q1) + uval (Prim2SF q2)
                              + uval (Prim2SF q3) + uval (Prim2SF q4)).
    { pose proof (uval_nonneg (Prim2SF q1)). pose proof (uval_nonneg (Prim2SF q2)).
      pose proof (uval_nonneg (Prim2SF q3)). pose proof (uval_nonneg (Prim2SF q4)).
      assert (Hpos : forall q, nnf (Prim2SF q) -> (0 <? q)%float = true ->
                uval (Prim2SF q) = 0 \/ 9 / 10000 <= uval (Prim2SF q) ->
                9 / 10000 <= uval (Prim2SF q)).
      { intros q Nq Pq [Z|G]; [|exact G]. apply (ltb_zero_nn _ Nq) in Pq. lra. }
      inversion Hex as [? ? P|? ? Hex1]; subst; [pose proof (Hpos q1 N1 P D1); lra|].
      inversion Hex1 as [? ? P|? ? Hex2]; subst; [pose proof (Hpos q2 N2 P D2); lra|].
      inversion Hex2 as [? ? P|? ? Hex3]; subst; [pose proof (Hpos q3 N3 P D3); lra|].
      inversion Hex3 as [? ? P|? ? Hex4]; subst; [pose proof (Hpos q4 N4 P D4); lra|].
      inversion Hex4. }
    assert (Z0 : nnf (Prim2SF 0%float)) by (rewrite Prim2SF_zero; exact I).
    assert (E0 : Rabs (uval (Prim2SF 0%float) - 0) <= 0)
      by (rewrite Prim2SF_zero; cbn [uval]; rewrite Rminus_0_r, Rabs_R0; lra).
    pose proof (uval_nonneg (Prim2SF q1)). pose proof (uval_nonneg (Prim2SF q2)).
    pose proof (uval_nonneg (Prim2SF q3)). pose proof (uval_nonneg (Prim2SF q4)).
    destruct (sum_step 0 q1 0 0 Z0 E0 ltac:(lra) ltac:(lra) N1 L1) as [S1n S1e].
    pose proof (sum_step _ q2 _ _ S1n S1e) as X0.
    destruct (X0 ltac:(lra) ltac:(lra) N2 L2) as [S2n S2e].
    pose proof (sum_step _ q3 _ _ S2n S2e) as X1.
    destruct (X1 ltac:(lra) ltac:(lra) N3 L3) as [S3n S3e].
    pose proof (sum_step _ q4 _ _ S3n S3e) as X2.
    destruct (X2 ltac:(lra) ltac:(lra) N4 L4) as [Tn Te].
    set (t := (0 + q1 + q2 + q3 + q4)%float) in *.
    apply Rabs_le_elim in Te.
    assert (Ht : / 1250 <= uval (Prim2SF t)) by lra.
    assert (Tpos : (0 <? t)%float = true) by (apply (ltb_zero_nn _ Tn); lra).
    unfold normalize_to_100. change (py_sum (map snd [("Dark", q1); ("Green", q2); ("Light", q3); ("Medium", q4)]%string)) with t.
    rewrite Tpos. cbn [map fst snd fold_right].
    destruct (norm_step q1 t N1 L1 Tn Ht) as [W1n W1e].
    destruct (norm_step q2 t N2 L2 Tn Ht) as [W2n W2e].
    destruct (norm_step q3 t N3 L3 Tn Ht) as [W3n W3e].
    destruct (norm_step q4 t N4 L4 Tn Ht) as [W4n W4e].
    rewrite (sf_val_nnf _ W1n), (sf_val_nnf _ W2n), (sf_val_nnf _ W3n), (sf_val_nnf _ W4n).
    eapply renormalised_sum_bound; [exact Ht| |exact W1e|exact W2e|exact W3e|exact W4e].
    apply Rabs_le_intro. lra.
  - intro Hall.
    inversion Hall as [|? ? Z1 Hall1]; subst.
    inversion Hall1 as [|? ? Z2 Hall2]; subst.
    inversion Hall2 as [|? ? Z3 Hall3]; subst.
    inversion Hall3 as [|? ? Z4 _]; subst.
    destruct (round3_zero r1 A1 B1 Z1) as [s1 E1].
    destruct (round3_zero r2 A2 B2 Z2) as [s2 E2].
    destruct (round3_zero r3 A3 B3 Z3) as [s3 E3].
    destruct (round3_zero r4 A4 B4 Z4) as [s4 E4].
    destruct (add_zeros 0 _ false s1 Prim2SF_zero E1) as [t1 T1].
    destruct (add_zeros _ _ _ s2 T1 E2) as [t2 T2].
    destruct (add_zeros _ _ _ s3 T2 E3) as [t3 T3].
    destruct (add_zeros _ _ _ s4 T3 E4) as [t4 T4].
    assert (Tz : (0 <? (0 + round3 r1 + round3 r2 + round3 r3 + round3 r4))%float = false)
      by (rewrite ltb_spec, T4, Prim2SF_zero; reflexivity).
    unfold normalize_to_100.
    change (py_sum (map snd [("Dark", round3 r1); ("Green", round3 r2); ("Light", round3 r3);
                             ("Medium", round3 r4)]%string))
      with (0 + round3 r1 + round3 r2 + round3 r3 + round3 r4)%float.
    rewrite Tz. split; [reflexivity|].
    assert (Ez : forall x s, Prim2SF x = S754_zero s -> (x =? 0)%float = true)
      by (intros x s Hx; rewrite eqb_spec, Hx, Prim2SF_zero; destruct s; reflexivity).
    repeat constructor; cbn [snd]; eapply Ez; eassumption.
Qed.

Lemma predict_color_percentages_sum_witness :
  let raw := [0.1; 0.2; 0.3; 0.4]%float in
  (fun (_ _ : unit) => Some raw) tt tt = Some raw /\
  List.length raw = 4%nat /\
  Forall (fun r => (0 <=? r)%float = true /\ (r <=? 1)%float = true) raw /\
  exists preds,
    predict_color_percentages unit unit (fun _ _ => Some raw) (Some tt) CNN_COLOR_CLASSES tt
      = Some preds
    /\ map fst preds = CNN_COLOR_CLASSES
    /\ (Exists (fun r => (0 <? round3 r)%float = true) raw ->
          Rabs (fold_right Rplus 0 (map (fun kv => sf_val (Prim2SF (snd kv))) preds) - 100)
          <= / 1000000)
    /\ (Forall (fun r => (0 <? round3 r)%float = false) raw ->
          map snd preds = map round3 raw
          /\ Forall (fun kv => (snd kv =? 0)%float = true) preds).
Proof.
  intro raw.
  assert (H1 : (fun (_ _ : unit) => Some raw) tt tt = Some raw) by reflexivity.
  assert (H2 : List.length raw = 4%nat) by reflexivity.
  assert (H3 : Forall (fun r => (0 <=? r)%float = true /\ (r <=? 1)%float = true) raw)
    by (repeat constructor).
  split; [exact H1|]. split; [exact H2|]. split; [exact H3|].
  exact (predict_color_percentages_sum unit unit (fun _ _ => Some raw) tt tt raw H1 H2 H3).
Defined.

End ColorScores.

(* ------------------------------------------------------------------ *)
(** ** Further properties of QualityGradingService *)

Module GradingExtras.
Import Py QualityModels Grading BatchCounts.
Open Scope float_scope.

(** [_determine_quality_category] always answers one of the five
    categories, and answers ['C'] exactly when the score is not [>= 0.6]:
    negative scores and NaN included. *)
Theorem determine_quality_category_range (s : float) :
  In (determine_quality_category s) QUALITY_CATEGORIES
  /\ (determine_quality_category s = "C"%string <-> (0.6 <=? s) = false).
Proof.
  unfold determine_quality_category, QUALITY_THRESHOLDS, QUALITY_CATEGORIES. cbn [first_category].
  assert (L9 : (0.6 <=? 0.9) = true) by reflexivity.
  assert (L8 : (0.6 <=? 0.8) = true) by reflexivity.
  assert (L7 : (0.6 <=? 0.7) = true) by reflexivity.
  destruct (0.9 <=? s) eqn:H9.
  { rewrite (FloatOrder.leb_trans _ _ _ L9 H9). split; [left; reflexivity|].
    split; intro H; discriminate H. }
  destruct (0.8 <=? s) eqn:H8.
  { rewrite (FloatOrder.leb_trans _ _ _ L8 H8). split; [right; left; reflexivity|].
    split; intro H; discriminate H. }
  destruct (0.7 <=? s) eqn:H7.
  { rewrite (FloatOrder.leb_trans _ _ _ L7 H7). split; [do 2 right; left; reflexivity|].
    split; intro H; discriminate H. }
  destruct (0.6 <=? s) eqn:H6.
  { split; [do 3 right; left; reflexivity|]. split; intro H; discriminate H. }
  destruct (0.0 <=? s); (split; [do 4 right; left; reflexivity|]); split; reflexivity.
Qed.

(** A features dict without ['circularity'] is scored with the default
    [0.5], so it always gets the low-circularity penalty: [0.7], or
    [0.49999999999999994] when its ['has_cracks'] entry is truthy. *)
Theorem evaluate_shape_quality_missing_circularity (feats : features) :
  get feats "circularity"%string = None ->
  evaluate_shape_quality feats
  = Some (if truthy (get_default feats "has_cracks"%string (VBool false))
          then 0.49999999999999994 else 0.7).
Proof.
  intro H. unfold evaluate_shape_quality. unfold get_default at 1. rewrite H.
  cbn [lt_float]. change (0.5 <? 0.7) with true. cbv iota beta.
  destruct (truthy _); vm_compute; reflexivity.
Qed.

Lemma evaluate_shape_quality_missing_circularity_witness :
  get [("has_cracks", VStr "False")]%string "circularity"%string = None
  /\ evaluate_shape_quality [("has_cracks", VStr "False")]%string
     = Some (if truthy (get_default [("has_cracks", VStr "False")]%string "has_cracks"%string
                          (VBool false))
             then 0.49999999999999994 else 0.7).
Proof.
  assert (H : get [("has_cracks", VStr "False")]%string "circularity"%string = None)
    by reflexivity.
  split; [exact H|]. exact (evaluate_shape_quality_missing_circularity _ H).
Defined.

Lemma get_none_keys {A} (d : list (string * A)) (c : string) :
  get d c = None <-> ~ In c (map fst d).
Proof.
  induction d as [|[k v] d IH]; simpl.
  - split; [intros _ []|reflexivity].
  - destruct (String.eqb c k) eqn:Hk.
    + apply String.eqb_eq in Hk. subst. split; [discriminate|]. intro H. exfalso. apply H. left. reflexivity.
    + rewrite IH. apply String.eqb_neq in Hk. split.
      * intros H [E|E]; [congruence|contradiction].
      * intros H E. apply H. right. exact E.
Qed.

(** The counts only grow for keys already present, so the sum grows by the
    number of beans whose category is a key. *)
Lemma fold_count_sum_keys (beans : list assessment) (d : list (string * Z)) :
  zsum (map snd (fold_left count_step beans d))
  = (zsum (map snd d)
     + Z.of_nat (List.length (filter (fun b => existsb (fun c => String.eqb (quality_category b) c)
                                                 (map fst d)) beans)))%Z.
Proof.
  revert d. induction beans as [|b beans IH]; intro d; cbn [fold_left filter List.length].
  - cbn. lia.
  - rewrite IH. unfold count_step.
    assert (Hex : existsb (fun c => String.eqb (quality_category b) c) (map fst d) = true
                  <-> get d (quality_category b) <> None).
    { rewrite existsb_exists. split.
      - intros [c [Hin Hc]] Hn. apply String.eqb_eq in Hc. subst c.
        apply get_none_keys in Hn. contradiction.
      - intro Hn. exists (quality_category b). split; [|apply String.eqb_refl].
        destruct (in_dec String.string_dec (quality_category b) (map fst d)) as [I|I]; [exact I|].
        exfalso. apply Hn. apply get_none_keys. exact I. }
    destruct (get d (quality_category b)) as [n|] eqn:Hget.
    + rewrite (keys_setitem d _ _ _ Hget), (zsum_setitem d _ n Hget).
      assert (E : existsb (fun c => String.eqb (quality_category b) c) (map fst d) = true)
        by (apply Hex; discriminate).
      rewrite E. cbn [List.length]. lia.
    + assert (E : existsb (fun c => String.eqb (quality_category b) c) (map fst d) = false).
      { destruct (existsb _ _) eqn:E'; [|reflexivity]. exfalso. exact (proj1 Hex eq_refl eq_refl). }
      rewrite E. lia.
Qed.

(** [generate_batch_report] on a non-empty batch always reports the five
    fixed categories; a bean whose category is not one of them is counted in
    [total_beans_analyzed] but in no bucket, so the buckets sum to the number
    of beans with a known category. *)
Theorem batch_report_unknown_categories (beans : list assessment) :
  beans <> [] ->
  exists r,
    generate_batch_report beans = BatchOk r
    /\ total_beans_analyzed r = Z.of_nat (List.length beans)
    /\ map fst (category_distribution r) = QUALITY_CATEGORIES
    /\ (forall c, In c QUALITY_CATEGORIES ->
          get (category_distribution r) c = Some (Z.of_nat (count_category c beans)))
    /\ zsum (map snd (category_distribution r))
       = Z.of_nat (List.length (filter known_category beans)).
Proof.
  intro Hne. unfold generate_batch_report.
  destruct (Z.of_nat (List.length beans) =? 0)%Z eqn:Hz.
  { apply Z.eqb_eq in Hz. destruct beans; [contradiction|simpl in Hz; lia]. }
  eexists. split; [reflexivity|].
  cbn [total_beans_analyzed category_distribution].
  split; [reflexivity|]. split; [rewrite fold_count_keys; reflexivity|]. split.
  - intros c Hc. rewrite fold_count_get, (initial_counts_get c Hc). reflexivity.
  - rewrite fold_count_sum_keys. reflexivity.
Qed.

Lemma batch_report_unknown_categories_witness :
  let b1 := {| quality_category := "A"; final_score := 0.7; base_quality_score := 0.85;
               shape_score := 0.49999999999999994; source_category := "Medium" |}%string in
  let b2 := {| quality_category := "Z"; final_score := 0.5; base_quality_score := 0.4;
               shape_score := 0.8; source_category := "Dark" |}%string in
  [b1; b2] <> [] /\
  exists r,
    generate_batch_report [b1; b2] = BatchOk r
    /\ total_beans_analyzed r = Z.of_nat (List.length [b1; b2])
    /\ map fst (category_distribution r) = QUALITY_CATEGORIES
    /\ (forall c, In c QUALITY_CATEGORIES ->
          get (category_distribution r) c = Some (Z.of_nat (count_category c [b1; b2])))
    /\ zsum (map snd (category_distribution r))
       = Z.of_nat (List.length (filter known_category [b1; b2])).
Proof.
  intros b1 b2.
  assert (H : [b1; b2] <> []) by discriminate.
  split; [exact H|]. exact (batch_report_unknown_categories [b1; b2] H).
Defined.

End GradingExtras.

(* ------------------------------------------------------------------ *)
(** ** Further properties of MLPredictorService.predict_color_percentages *)

Module PredictorExtras.
Import Py ML.

Lemma setitem_fresh {A} (d : list (string * A)) (k : string) (v : A) :
  ~ In k (map fst d) -> setitem d k v = d ++ [(k, v)].
Proof.
  induction d as [|[k' v'] d IH]; intro H; [reflexivity|]. cbn [setitem].
  destruct (String.eqb k k') eqn:E.
  - apply String.eqb_eq in E. subst. exfalso. apply H. left. reflexivity.
  - cbn [app]. f_equal. apply IH. intro I. apply H. right. exact I.
Qed.

Lemma skipn_nth_error {A} (l : list A) (i : nat) :
  (i < List.length l)%nat -> exists x, nth_error l i = Some x /\ skipn i l = x :: skipn (S i) l.
Proof.
  revert i. induction l as [|a l IH]; intros i Hi; [cbn in Hi; lia|].
  destruct i as [|i]; [exists a; split; reflexivity|].
  cbn in Hi. destruct (IH i ltac:(lia)) as [x [H1 H2]]. exists x. split; assumption.
Qed.

Lemma fill_predictions_ok (raw : list float) (classes : list string) (i : nat)
    (acc : list (string * float)) :
  NoDup classes -> (forall c, In c classes -> ~ In c (map fst acc)) ->
  (i + List.length classes <= List.length raw)%nat ->
  fill_predictions raw classes i acc
  = Some (acc ++ combine classes (map round3 (skipn i raw))).
Proof.
  revert i acc. induction classes as [|c rest IH]; intros i acc Hnd Hfresh Hlen.
  - cbn. rewrite app_nil_r. reflexivity.
  - inversion Hnd as [|? ? Hc Hnd']; subst.
    cbn [List.length] in Hlen.
    destruct (skipn_nth_error raw i ltac:(lia)) as [r [Hr Hs]].
    cbn [fill_predictions]. rewrite Hr, Hs. cbn [map combine].
    rewrite setitem_fresh by (apply Hfresh; left; reflexivity).
    rewrite IH; [rewrite <- app_assoc; reflexivity|exact Hnd'| |lia].
    intros c' Hc' Hin. rewrite map_app in Hin. apply in_app_or in Hin.
    destruct Hin as [Hin|[E|[]]].
    + apply (Hfresh c'); [right; exact Hc'|exact Hin].
    + cbn in E. subst c'. contradiction.
Qed.

Lemma fill_predictions_short (raw : list float) (classes : list string) (i : nat)
    (acc : list (string * float)) :
  (i <= List.length raw)%nat -> (List.length raw < i + List.length classes)%nat ->
  fill_predictions raw classes i acc = None.
Proof.
  revert i acc. induction classes as [|c rest IH]; intros i acc Hi Hlen; cbn [List.length] in Hlen.
  - lia.
  - cbn [fill_predictions].
    destruct (nth_error raw i) eqn:Hr; [|reflexivity].
    assert (i < List.length raw)%nat by (apply nth_error_Some; congruence).
    apply IH; lia.
Qed.

Lemma map_fst_combine {A B} (l : list A) (l' : list B) :
  (List.length l <= List.length l')%nat -> map fst (combine l l') = l.
Proof.
  revert l'. induction l as [|a l IH]; intros [|b l'] H; cbn in *; try lia; try reflexivity.
  f_equal. apply IH. lia.
Qed.

(** When the model's score vector is shorter than the class list,
    [predict_color_percentages] answers [None] (the [IndexError] is caught);
    otherwise, for distinct class names, it maps each class, in order, to
    the rounded score at its position (extra scores are ignored), then
    renormalises. *)
Theorem predict_color_percentages_scores (image model : Type)
    (run_model : model -> image -> option (list float)) (m : model) (img : image)
    (classes : list string) (raw : list float) :
  run_model m img = Some raw ->
  ((List.length raw < List.length classes)%nat ->
     predict_color_percentages image model run_model (Some m) classes img = None)
  /\ (NoDup classes -> (List.length classes <= List.length raw)%nat ->
        predict_color_percentages image model run_model (Some m) classes img
        = Some (normalize_to_100 (combine classes (map round3 raw)))
        /\ map fst (normalize_to_100 (combine classes (map round3 raw))) = classes).
Proof.
  intro Hrun. unfold predict_color_percentages. rewrite Hrun. split.
  - intro Hs. rewrite fill_predictions_short by (cbn; lia). reflexivity.
  - intros Hnd Hle.
    rewrite (fill_predictions_ok raw classes 0 [] Hnd (fun c _ H => H) ltac:(cbn; lia)).
    cbn [app skipn]. split; [reflexivity|].
    assert (K : map fst (combine classes (map round3 raw)) = classes)
      by (apply map_fst_combine; rewrite length_map; exact Hle).
    unfold normalize_to_100. destruct (0 <? _)%float; [|exact K].
    rewrite map_map. cbn [fst]. exact K.
Qed.

Lemma predict_color_percentages_scores_witness :
  (fun (_ _ : unit) => Some [0.1; 0.2; 0.3; 0.4]%float) tt tt = Some [0.1; 0.2; 0.3; 0.4]%float
  /\ ((List.length [0.1; 0.2; 0.3; 0.4]%float < List.length QualityModels.CNN_COLOR_CLASSES)%nat ->
        predict_color_percentages unit unit (fun _ _ => Some [0.1; 0.2; 0.3; 0.4]%float) (Some tt)
          QualityModels.CNN_COLOR_CLASSES tt = None)
  /\ (NoDup QualityModels.CNN_COLOR_CLASSES ->
      (List.length QualityModels.CNN_COLOR_CLASSES <= List.length [0.1; 0.2; 0.3; 0.4]%float)%nat ->
        predict_color_percentages unit unit (fun _ _ => Some [0.1; 0.2; 0.3; 0.4]%float) (Some tt)
          QualityModels.CNN_COLOR_CLASSES tt
        = Some (normalize_to_100 (combine QualityModels.CNN_COLOR_CLASSES
                                    (map round3 [0.1; 0.2; 0.3; 0.4]%float)))
        /\ map fst (normalize_to_100 (combine QualityModels.CNN_COLOR_CLASSES
                                        (map round3 [0.1; 0.2; 0.3; 0.4]%float)))
           = QualityModels.CNN_COLOR_CLASSES).
Proof.
  assert (H : (fun (_ _ : unit) => Some [0.1; 0.2; 0.3; 0.4]%float) tt tt
              = Some [0.1; 0.2; 0.3; 0.4]%float) by reflexivity.
  split; [exact H|].
  exact (predict_color_percentages_scores unit unit (fun _ _ => Some [0.1; 0.2; 0.3; 0.4]%float)
           tt tt QualityModels.CNN_COLOR_CLASSES _ H).
Defined.

End PredictorExtras.

(* ------------------------------------------------------------------ *)
(** ** ClassificationSession.complete with a batch report *)

Module SessionExtras.
Import Py Grading Session.

(** Completing a session with the report of [generate_batch_report] marks it
    [COMPLETED], stores the report, and records as [total_grains_analyzed]
    the number of assessments: [0] for an empty batch, whose error dict has
    no ['total_beans_analyzed'] key. *)
Theorem complete_with_batch_report (timestamp : Type) (s : classification_session timestamp)
    (beans : list assessment) (time_taken : float) (now : timestamp) :
  let s' := complete timestamp s (generate_batch_report beans) time_taken now in
  status timestamp s' = COMPLETED
  /\ classification_result timestamp s' = Some (generate_batch_report beans)
  /\ total_grains_analyzed timestamp s' = Z.of_nat (List.length beans)
  /\ completed_at timestamp s' = Some now.
Proof.
  cbn zeta. split; [reflexivity|]. split; [reflexivity|]. split; [|reflexivity].
  cbn [total_grains_analyzed complete]. unfold report_total_beans, generate_batch_report.
  destruct (Z.of_nat (List.length beans) =? 0)%Z eqn:Hz.
  - apply Z.eqb_eq in Hz. symmetry. exact Hz.
  - reflexivity.
Qed.

End SessionExtras.

(* ------------------------------------------------------------------ *)
(** ** MLPredictorService._load_model *)

Module LoaderExtras.
Import ModelLoader.

(** [_load_model] returns a local model that loads without touching the
    network; it sends at most one request, only to the configured URL, only
    when that URL is set (neither empty nor the placeholder) and the local
    file is missing or failed to load; and any model it returns is one that
    was actually loaded, from disk or after the download. *)
Theorem load_model_effects (model : Type) (env : loader_env model) :
  (forall m, path_exists model env = true -> load_local model env = Some m ->
     load_model model env = (Some m, [ELoadLocal]))
  /\ (forall url, In (ERequest url) (snd (load_model model env)) ->
        url = model_blob_url model env /\ url <> ""%string /\ url <> PLACEHOLDER_URL
        /\ (path_exists model env = false \/ load_local model env = None))
  /\ List.length (filter (fun e => match e with ERequest _ => true | _ => false end)
                   (snd (load_model model env))) <= 1
  /\ (forall m, fst (load_model model env) = Some m ->
        load_local model env = Some m \/ load_downloaded model env = Some m).
Proof.
  destruct env as [pe ll url ok ld].
  unfold load_model, download_model_from_blob.
  cbn [path_exists load_local model_blob_url fetch_ok load_downloaded].
  destruct (String.eqb url "" || String.eqb url PLACEHOLDER_URL)%bool eqn:Hu.
  - destruct pe; [destruct ll as [m0|]|]; cbn [fst snd app In filter List.length];
      repeat split; intros; try discriminate; try lia; auto;
      repeat match goal with
      | H : _ \/ _ |- _ => destruct H
      | H : False |- _ => contradiction
      end; congruence.
  - apply orb_false_iff in Hu. destruct Hu as [H1 H2].
    apply String.eqb_neq in H1, H2.
    destruct pe; [destruct ll as [m0|]|]; destruct ok; cbn [fst snd app In filter List.length];
      repeat split; intros; try discriminate; try lia; auto;
      repeat match goal with
      | H : _ \/ _ |- _ => destruct H
      | H : ERequest _ = ERequest _ |- _ => injection H as <-
      | H : False |- _ => contradiction
      end; try congruence; auto.
Qed.

End LoaderExtras.

(* ------------------------------------------------------------------ *)
(** ** QualityGradingService.calculate_final_quality: range of the score *)

Module FinalScoreExtras.
Import Py QualityModels Grading FloatModel FloatRound ColorScores.
Local Open Scope R_scope.

Lemma uval_neg_exp (m : positive) (e : Z) :
  (e < 0)%Z -> uval (S754_finite false m e) = IZR (Zpos m) / IZR (2 ^ (- e)).
Proof.
  intro He. cbn [uval]. replace e with (Z.opp (- e)) at 1 by lia.
  rewrite bpow_opp, (bpow_IZR (- e)) by lia. reflexivity.
Qed.

Lemma frac_le (m d p q : Z) :
  (0 < d)%Z -> (0 < q)%Z -> (q * m <= p * d)%Z -> IZR m / IZR d <= IZR p / IZR q.
Proof.
  intros Hd Hq H. apply IZR_le in H. rewrite !mult_IZR in H.
  apply IZR_lt in Hd, Hq.
  replace (IZR m / IZR d) with ((IZR q * IZR m) * / (IZR q * IZR d)) by (field; lra).
  replace (IZR p / IZR q) with ((IZR p * IZR d) * / (IZR q * IZR d)) by (field; lra).
  apply Rmult_le_compat_r; [|exact H].
  apply Rlt_le, Rinv_0_lt_compat, Rmult_lt_0_compat; assumption.
Qed.

Lemma round_half_even_le (num den K : Z) :
  (0 < den)%Z -> (0 <= num)%Z -> (2 * num < (2 * K + 1) * den)%Z ->
  (0 <= round_half_even num den <= K)%Z.
Proof.
  intros Hd Hn H. unfold round_half_even.
  pose proof (Z.div_mod num den ltac:(lia)) as Hdm. pose proof (Z.mod_pos_bound num den Hd) as Hr.
  assert (Hq0 : (0 <= num / den)%Z) by (apply Z.div_pos; lia).
  assert (HqK : (num / den <= K)%Z) by nia.
  assert (Hlast : (num / den = K)%Z -> (2 * (num mod den) < den)%Z) by (intro; nia).
  destruct (Z.compare_spec (2 * (num mod den)) den) as [E|L|G].
  - destruct (Z.even (num / den)); [lia|].
    destruct (Z.eq_dec (num / den) K) as [HE|HE]; [specialize (Hlast HE); lia|lia].
  - lia.
  - destruct (Z.eq_dec (num / den) K) as [HE|HE]; [specialize (Hlast HE); lia|lia].
Qed.

(** [round(x, 3)] of a nonnegative double at most [1.0001] is a
    nonnegative double at most [1]. *)
Lemma round3_le_one (v : float) :
  nnf (Prim2SF v) -> uval (Prim2SF v) <= 1 + / 10000 ->
  nnf (Prim2SF (round3 v)) /\ uval (Prim2SF (round3 v)) <= 1.
Proof.
  intros Hn Hle.
  unfold round3. destruct (Prim2SF v) as [s|s| |[|] m e] eqn:Hr; try contradiction.
  - rewrite Hr. simpl. split; [exact I|lra].
  - destruct (0 <=? e)%Z eqn:He.
    + rewrite Hr. split; [exact I|]. apply Z.leb_le in He.
      cbn [uval] in Hle |- *. rewrite (bpow_IZR e He), <- mult_IZR in Hle |- *.
      assert (Hlt : (Zpos m * 2 ^ e < 2)%Z) by (apply lt_IZR; lra).
      apply IZR_le. lia.
    + apply Z.leb_gt in He. rewrite (uval_neg_exp m e He) in Hle.
      assert (HD : (0 < 2 ^ (- e))%Z) by (apply Z.pow_pos_nonneg; lia).
      assert (Hm : (10000 * Zpos m <= 10001 * 2 ^ (- e))%Z).
      { apply le_IZR. rewrite !mult_IZR. apply IZR_lt in HD.
        unfold Rdiv in Hle. apply (Rmult_le_compat_r (IZR (2 ^ (- e)))) in Hle; [|lra].
        rewrite Rmult_assoc, Rinv_l in Hle by lra. lra. }
      pose proof (round_half_even_le (Zpos m * 1000) (2 ^ (- e)) 1000 HD ltac:(lia) ltac:(lia)) as Hk.
      set (k := round_half_even (Zpos m * 1000) (2 ^ (- e))) in *.
      assert (H1000 : nnf (Prim2SF 1000%float)) by (change (Prim2SF 1000%float) with (S754_finite false 8796093022208000 (-43)); exact I).
      destruct (Z.eq_dec k 0) as [Hk0|Hk0].
      * rewrite Hk0. rewrite div_spec.
        change (Prim2SF 1000%float) with (S754_finite false 8796093022208000 (-43)).
        change (Prim2SF (float_of_Z 0)) with (S754_zero false). simpl.
        split; [exact I|lra].
      * destruct (float_of_Z_spec k ltac:(lia)) as [Hkn Hkv].
        assert (Hkr : 1 <= IZR k <= 1000) by (split; apply IZR_le; lia).
        assert (Hq : IZR k / 1000 <= 1).
        { unfold Rdiv. apply (Rmult_le_reg_r 1000); [lra|].
          rewrite Rmult_assoc, Rinv_l by lra. lra. }
        assert (Hx : uval (Prim2SF (float_of_Z k)) / uval (Prim2SF 1000%float) < bpow 970).
        { rewrite Hkv, uval_1000. apply Rle_lt_trans with 1; [exact Hq|].
          rewrite <- bpow_0. apply bpow_lt. lia. }
        destruct (div_nn (float_of_Z k) 1000 Hkn H1000 ltac:(rewrite uval_1000; lra) Hx)
          as [Dn [_ Dm]].
        rewrite Hkv, uval_1000 in Dm.
        split; [exact Dn|exact (Dm Hq)].
Qed.

Lemma weight_07 : nnf (Prim2SF 0.7%float) /\ uval (Prim2SF 0.7%float) <= 7 / 10.
Proof.
  change (Prim2SF 0.7%float) with (S754_finite false 6305039478318694 (-53)).
  split; [exact I|]. rewrite uval_neg_exp by lia. apply frac_le; vm_compute; congruence.
Qed.

Lemma weight_03 : nnf (Prim2SF 0.3%float) /\ uval (Prim2SF 0.3%float) <= 3 / 10.
Proof.
  change (Prim2SF 0.3%float) with (S754_finite false 5404319552844595 (-54)).
  split; [exact I|]. rewrite uval_neg_exp by lia. apply frac_le; vm_compute; congruence.
Qed.

Lemma shape_score_unit (feats : features) (s : float) :
  evaluate_shape_quality feats = Some s -> nnf (Prim2SF s) /\ uval (Prim2SF s) <= 1.
Proof.
  intro H. destruct (evaluate_shape_quality_cases feats s H) as [Hv _].
  destruct Hv as [ -> | [ -> | [ -> | -> ]]].
  - split; [vm_compute; exact I|rewrite uval_one; lra].
  - destruct weight_07 as [A B]. split; [exact A|lra].
  - change (Prim2SF 0.8%float) with (S754_finite false 7205759403792794 (-53)).
    split; [exact I|]. rewrite uval_neg_exp by lia.
    replace 1 with (IZR 1 / IZR 1) by (simpl; field). apply frac_le; vm_compute; congruence.
  - change (Prim2SF 0.49999999999999994%float) with (S754_finite false 9007199254740991 (-54)).
    split; [exact I|]. rewrite uval_neg_exp by lia.
    replace 1 with (IZR 1 / IZR 1) by (simpl; field). apply frac_le; vm_compute; congruence.
Qed.

(** For a base score in [[0, 1]], the [final_score] that
    [calculate_final_quality] reports, [round(base*0.7 + shape*0.3, 3)], is
    again in [[0, 1]]: every shape score is at most [1] and the two weights,
    as doubles, sum to at most [1], so the rounding errors cannot push the
    rounded score above [1.0]. *)
Theorem calculate_final_quality_score_range (b : float) (src : string) (feats : features)
    (a : assessment) :
  (0 <=? b)%float = true -> (b <=? 1)%float = true ->
  calculate_final_quality b src feats = Some a ->
  (0 <=? final_score a)%float = true /\ (final_score a <=? 1)%float = true.
Proof.
  intros H0 H1 Hc. unfold calculate_final_quality in Hc.
  destruct (evaluate_shape_quality feats) as [s|] eqn:Hs; [|discriminate].
  injection Hc as <-. cbn [final_score].
  assert (Hone : nnf (Prim2SF 1%float))
    by (change (Prim2SF 1%float) with (S754_finite false 4503599627370496 (-52)); exact I).
  pose proof (leb_zero_nnf b 1 Hone H0 H1) as Hb.
  pose proof (proj1 (leb_nn b 1 Hb Hone) H1) as Hbu. rewrite uval_one in Hbu.
  destruct weight_07 as [N7 U7]. destruct weight_03 as [N3 U3].
  destruct (shape_score_unit feats s Hs) as [Ns Us].
  pose proof (uval_nonneg (Prim2SF b)). pose proof (uval_nonneg (Prim2SF 0.7%float)).
  pose proof (uval_nonneg (Prim2SF 0.3%float)). pose proof (uval_nonneg (Prim2SF s)).
  pose proof bpow_970_big as Big.
  destruct (mul_nn b 0.7 Hb N7 ltac:(nra)) as [M1 E1].
  destruct (mul_nn s 0.3 Ns N3 ltac:(nra)) as [M2 E2].
  apply Rabs_le_elim in E1, E2.
  assert (P1 : uval (Prim2SF b) * uval (Prim2SF 0.7%float) <= 7 / 10) by nra.
  assert (P2 : uval (Prim2SF s) * uval (Prim2SF 0.3%float) <= 3 / 10) by nra.
  pose proof (err_le _ (Rmult_le_pos _ _ H H2)) as F1.
  pose proof (err_le _ (Rmult_le_pos _ _ H4 H3)) as F2.
  pose proof (uval_nonneg (Prim2SF (b * 0.7)%float)). pose proof (uval_nonneg (Prim2SF (s * 0.3)%float)).
  destruct (add_nn (b * 0.7) (s * 0.3) M1 M2 ltac:(lra)) as [A E3].
  apply Rabs_le_elim in E3.
  pose proof (err_le _ (Rplus_le_le_0_compat _ _ H5 H6)) as F3.
  destruct (round3_le_one (b * 0.7 + s * 0.3) A ltac:(lra)) as [R1 R2].
  split.
  - apply (leb_nn 0 _ ltac:(change (Prim2SF 0%float) with (S754_zero false); exact I) R1).
    change (Prim2SF 0%float) with (S754_zero false). cbn [uval]. apply uval_nonneg.
  - apply (leb_nn _ 1 R1 Hone). rewrite uval_one. exact R2.
Qed.

Lemma calculate_final_quality_score_range_witness :
  exists a, calculate_final_quality 1.0 "Specialty"%string
              [("circularity", VFloat 0.9); ("has_cracks", VStr "")]%string = Some a
            /\ (0 <=? final_score a)%float = true /\ (final_score a <=? 1)%float = true.
Proof.
  eexists. split; [reflexivity|].
  apply (calculate_final_quality_score_range 1.0 "Specialty"%string
           [("circularity", VFloat 0.9); ("has_cracks", VStr "")]%string);
    reflexivity.
Defined.

End FinalScoreExtras.

(* ------------------------------------------------------------------ *)
(** ** CVService.extract_all_features: the crack flag *)

Module CrackExtras.
Import Py CV FloatModel FloatRound CVFeatures FinalScoreExtras.
Local Open Scope R_scope.







End CrackExtras.

(* ------------------------------------------------------------------ *)
(** ** QualityGradingService.generate_batch_report: range of the average *)

Module BatchAverageExtras.
Import Py QualityModels Grading FloatModel FloatRound FinalScoreExtras.
Local Open Scope R_scope.

Lemma bpow_970_huge : 10000000 < bpow 970.
Proof.
  apply Rlt_le_trans with (bpow 30).
  - rewrite (bpow_IZR 30) by lia. change (2 ^ 30)%Z with 1073741824%Z. lra.
  - apply bpow_le. lia.
Qed.

Lemma unit_float (f : float) :
  (0 <=? f)%float = true -> (f <=? 1)%float = true ->
  nnf (Prim2SF f) /\ uval (Prim2SF f) <= 1.
Proof.
  intros F0 F1.
  assert (Hone : nnf (Prim2SF 1%float))
    by (change (Prim2SF 1%float) with (S754_finite false 4503599627370496 (-52)); exact I).
  pose proof (leb_zero_nnf f 1 Hone F0 F1) as Nf. split; [exact Nf|].
  rewrite <- uval_one. exact (proj1 (leb_nn f 1 Nf Hone) F1).
Qed.

Lemma unit_float_leb (f : float) :
  nnf (Prim2SF f) -> uval (Prim2SF f) <= 1 ->
  (0 <=? f)%float = true /\ (f <=? 1)%float = true.
Proof.
  intros Nf Uf.
  assert (Hone : nnf (Prim2SF 1%float))
    by (change (Prim2SF 1%float) with (S754_finite false 4503599627370496 (-52)); exact I).
  split.
  - apply (leb_nn 0 _ ltac:(change (Prim2SF 0%float) with (S754_zero false); exact I) Nf).
    change (Prim2SF 0%float) with (S754_zero false). cbn [uval]. apply uval_nonneg.
  - apply (leb_nn _ 1 Nf Hone). rewrite uval_one. exact Uf.
Qed.

(** The running float sum of at most a million scores in [[0, 1]] stays
    within a relative [10^-8] of the count of terms added. *)
Lemma sum_fold_bound (xs : list float) (acc : float) (k : R) :
  nnf (Prim2SF acc) -> 0 <= k -> uval (Prim2SF acc) <= k * (1 + / 100000000) ->
  Forall (fun f => (0 <=? f)%float = true /\ (f <=? 1)%float = true) xs ->
  k + INR (List.length xs) <= 1000000 ->
  nnf (Prim2SF (fold_left add xs acc))
  /\ uval (Prim2SF (fold_left add xs acc)) <= (k + INR (List.length xs)) * (1 + / 100000000).
Proof.
  revert acc k. induction xs as [|f xs IH]; intros acc k Ha Hk Hu Hf Hn;
    cbn [fold_left List.length] in *.
  - replace (k + INR 0) with k by (simpl; ring). split; assumption.
  - inversion Hf as [|? ? [F0 F1] Hf']; subst.
    rewrite S_INR in Hn |- *. pose proof (pos_INR (List.length xs)).
    destruct (unit_float f F0 F1) as [Nf Uf].
    pose proof (uval_nonneg (Prim2SF acc)). pose proof (uval_nonneg (Prim2SF f)).
    pose proof bpow_970_huge.
    destruct (add_nn acc f Ha Nf ltac:(lra)) as [A E].
    apply Rabs_le_elim in E.
    pose proof (err_le _ (Rplus_le_le_0_compat _ _ H0 H1)) as F.
    destruct (IH (acc + f)%float (k + 1) A ltac:(lra) ltac:(lra) Hf' ltac:(lra)) as [R1 R2].
    split; [exact R1|lra].
Qed.

(** For a batch of at most a million assessments whose [final_score]s all lie
    in [[0, 1]], the [average_quality_score] that [generate_batch_report]
    reports is again in [[0, 1]]: the rounding errors of the float sum and of
    the division cannot carry [round(avg, 3)] above [1.0]. *)
Theorem batch_report_average_range (beans : list assessment) :
  beans <> [] ->
  (Z.of_nat (List.length beans) <= 1000000)%Z ->
  Forall (fun b => (0 <=? final_score b)%float = true /\ (final_score b <=? 1)%float = true) beans ->
  exists r,
    generate_batch_report beans = BatchOk r
    /\ (0 <=? average_quality_score r)%float = true
    /\ (average_quality_score r <=? 1)%float = true.
Proof.
  intros Hne Hn Hf. unfold generate_batch_report.
  destruct (Z.of_nat (List.length beans) =? 0)%Z eqn:Hz.
  { apply Z.eqb_eq in Hz. destruct beans; [contradiction|simpl in Hz; lia]. }
  apply Z.eqb_neq in Hz.
  eexists. split; [reflexivity|]. cbn [average_quality_score].
  assert (Hlen : 1 <= INR (List.length beans) <= 1000000).
  { rewrite INR_IZR_INZ. split; apply IZR_le; lia. }
  destruct (sum_fold_bound (map final_score beans) 0 0
              ltac:(change (Prim2SF 0%float) with (S754_zero false); exact I) ltac:(lra)
              ltac:(change (Prim2SF 0%float) with (S754_zero false); cbn [uval]; lra)
              ltac:(apply Forall_map; exact Hf)
              ltac:(rewrite length_map; lra)) as [Sn Su].
  rewrite length_map, Rplus_0_l in Su. fold (py_sum (map final_score beans)) in Sn, Su.
  set (s := py_sum (map final_score beans)) in *.
  set (n := Z.of_nat (List.length beans)) in *.
  assert (Hnr : IZR n = INR (List.length beans)) by (unfold n; rewrite INR_IZR_INZ; reflexivity).
  destruct (float_of_Z_spec n ltac:(lia)) as [Nn Un]. rewrite Hnr in Un.
  pose proof (uval_nonneg (Prim2SF s)) as S0.
  set (x := uval (Prim2SF s) / INR (List.length beans)).
  assert (Hx : 0 <= x <= 1 + / 100000000).
  { unfold x. split; [apply Rmult_le_pos; [lra|apply Rlt_le, Rinv_0_lt_compat; lra]|].
    unfold Rdiv. apply (Rmult_le_reg_r (INR (List.length beans))); [lra|].
    rewrite Rmult_assoc, Rinv_l by lra. lra. }
  pose proof bpow_970_huge.
  destruct (div_nn s (float_of_Z n) Sn Nn ltac:(rewrite Un; lra)
              ltac:(rewrite Un; fold x; lra)) as [Dn [De _]].
  rewrite Un in De. fold x in De. apply Rabs_le_elim in De.
  pose proof (err_le x ltac:(lra)).
  destruct (round3_le_one (s / float_of_Z n)%float Dn ltac:(lra)) as [R1 R2].
  exact (unit_float_leb _ R1 R2).
Qed.

Lemma batch_report_average_range_witness :
  exists r,
    generate_batch_report
      [{| quality_category := "A"; final_score := 0.75; base_quality_score := 0.8;
          shape_score := 0.7; source_category := "Light" |};
       {| quality_category := "Specialty"; final_score := 1.0; base_quality_score := 1.0;
          shape_score := 1.0; source_category := "Light" |}]%string
    = BatchOk r
    /\ (0 <=? average_quality_score r)%float = true
    /\ (average_quality_score r <=? 1)%float = true.
Proof.
  apply batch_report_average_range.
  - discriminate.
  - vm_compute. congruence.
  - repeat constructor.
Defined.

End BatchAverageExtras.
